(** * note-aggregator: the aggregation engine and the option scanner

    A shallow embedding of [logic/aggregate.js].  JavaScript strings are
    lists of code units; the development keeps to code units below 256,
    which is where every character the two regular expressions of the source
    name (white space, [-], [#], digits, line terminators) lives.

    The collaborators the source calls but does not define are kept
    outside: the file system is a record of oracles ([World]), [path.join]
    and [path.basename] are fields of [PathLib], and a source file is
    given by what [fs.readFileSync] followed by gray-matter's [matter]
    yields for it. *)

From Stdlib Require Import List Ascii String Bool Arith ZArith Lia.
From Stdlib Require Import Sorting.Sorted Sorting.Permutation DecimalString.
From Stdlib Require Import Logic.Eqdep_dec.
Import ListNotations.

Open Scope string_scope.
Open Scope list_scope.

(** ** JavaScript strings *)

Module JsString.

Definition jsstring := list ascii.

(** A literal. *)
Definition str (s : string) : jsstring := list_ascii_of_string s.

Definition nl : ascii := "010"%char.
Definition cr : ascii := "013"%char.

(** Lines joined by ["\n"], for writing multi-line literals. *)
Fixpoint unlines (ls : list string) : jsstring :=
  match ls with
  | [] => []
  | [l] => str l
  | l :: rest => str l ++ nl :: unlines rest
  end.

(** LineTerminator of the regular-expression grammar: what [^] and [$]
    look at under the [m] flag. *)
Definition is_line_terminator (c : ascii) : bool :=
  (c =? nl)%char || (c =? cr)%char.

(** [\s], which is also what [String.prototype.trim] removes: TAB, LF, VT,
    FF, CR, SP and NBSP. *)
Definition is_space (c : ascii) : bool :=
  is_line_terminator c
  || (c =? "009")%char || (c =? "011")%char || (c =? "012")%char
  || (c =? " ")%char || (c =? "160")%char.

(** [\d] *)
Definition is_digit (c : ascii) : bool :=
  (Ascii.leb "0" c) && (Ascii.leb c "9").

Definition str_eqb (a b : jsstring) : bool :=
  if list_eq_dec ascii_dec a b then true else false.

(** Comparison of strings by code units, as [<], [<=], [>=] on two strings
    and the default [Array.prototype.sort] do. *)
Fixpoint str_compare (a b : jsstring) : comparison :=
  match a, b with
  | [], [] => Eq
  | [], _ :: _ => Lt
  | _ :: _, [] => Gt
  | x :: a', y :: b' =>
      match Ascii.compare x y with
      | Eq => str_compare a' b'
      | c => c
      end
  end.

Definition str_leb (a b : jsstring) : bool :=
  match str_compare a b with Gt => false | _ => true end.

Definition str_geb (a b : jsstring) : bool := str_leb b a.

(** [s.trim()], in two passes. *)
Fixpoint trim_start (s : jsstring) : jsstring :=
  match s with
  | [] => []
  | c :: r => if is_space c then trim_start r else s
  end.

Fixpoint trim_end (s : jsstring) : jsstring :=
  match s with
  | [] => []
  | c :: r =>
      match trim_end r with
      | [] => if is_space c then [] else [c]
      | r' => c :: r'
      end
  end.

Definition trim (s : jsstring) : jsstring := trim_end (trim_start s).

(** Truthiness of a string. *)
Definition nonempty (s : jsstring) : bool :=
  match s with [] => false | _ :: _ => true end.

(** [c.toLowerCase()] on a code unit of [A-Za-z0-9_-]. *)
Definition lower (c : ascii) : ascii :=
  if (Ascii.leb "A" c) && (Ascii.leb c "Z")
  then ascii_of_nat (nat_of_ascii c + 32)
  else c.

End JsString.
Import JsString.

(** ** Content extraction (aggregate.js, lines 194-201) *)

Module Extract.

(** [\s*$] under the [m] flag, tried at the head of [s]: some run of white
    space ends at the end of the input or in front of a line terminator. *)
Fixpoint eol_after_ws (s : jsstring) : bool :=
  match s with
  | [] => true
  | c :: r =>
      if is_line_terminator c then true
      else if is_space c then eol_after_ws r
      else false
  end.

Definition dashes_then_eol (s : jsstring) : bool :=
  match s with
  | a :: b :: c :: r =>
      (a =? "-")%char && (b =? "-")%char && (c =? "-")%char && eol_after_ws r
  | _ => false
  end.

(** [\s*---\s*$] tried at the head of [s].  [\s] also matches line
    terminators, so the white space in front of the dashes may run over
    several blank lines. *)
Fixpoint sep_at (s : jsstring) : bool :=
  match s with
  | [] => false
  | c :: r => if is_space c then sep_at r else dashes_then_eol s
  end.

(** [content.split(/^\s*---\s*$/m)[0]]: the text in front of the leftmost
    match.  [bol] says whether the head of [s] is at the start of a line,
    which is where [^] matches. *)
Fixpoint split_first (bol : bool) (s : jsstring) : jsstring :=
  match s with
  | [] => []
  | c :: r =>
      if bol && sep_at s then []
      else c :: split_first (is_line_terminator c) r
  end.

Fixpoint digits (n : nat) (s : jsstring) : option jsstring :=
  match n with
  | O => Some s
  | S k =>
      match s with
      | c :: r => if is_digit c then digits k r else None
      | [] => None
      end
  end.

Definition expect (c : ascii) (s : jsstring) : option jsstring :=
  match s with
  | d :: r => if (d =? c)%char then Some r else None
  | [] => None
  end.

Arguments expect c%_char s.

Definition bind {A B} (x : option A) (f : A -> option B) : option B :=
  match x with Some a => f a | None => None end.

Notation "x <- e ;; k" := (bind e (fun x => k))
  (at level 61, e at next level, right associativity).

(** [\s*?\n]: the shortest run of white space that a line feed follows. *)
Fixpoint lazy_ws_nl (s : jsstring) : option jsstring :=
  match s with
  | [] => None
  | c :: r =>
      if (c =? nl)%char then Some r
      else if is_space c then lazy_ws_nl r
      else None
  end.

(** [\d{4}-\d{2}-\d{2}] *)
Definition date_at (s : jsstring) : option jsstring :=
  s1 <- digits 4 s ;;
  s2 <- expect "-" s1 ;;
  s3 <- digits 2 s2 ;;
  s4 <- expect "-" s3 ;;
  digits 2 s4.

(** [##\s+\d{4}-\d{2}-\d{2}\s*?\n] tried at the head of [s]; the result is
    what follows the match.  A digit is no white space, so [\s+] can only
    take the whole run of white space after the two hashes. *)
Definition heading_at (s : jsstring) : option jsstring :=
  s1 <- expect "#" s ;;
  s2 <- expect "#" s1 ;;
  match s2 with
  | w :: _ =>
      if is_space w then
        s3 <- date_at (trim_start s2) ;;
        lazy_ws_nl s3
      else None
  | [] => None
  end.

(** [s.replace(/^##\s+\d{4}-\d{2}-\d{2}\s*?\n/m, "")]: no [g] flag, so the
    leftmost match only; with [m], [^] is the start of any line. *)
Fixpoint remove_heading (bol : bool) (s : jsstring) : jsstring :=
  match s with
  | [] => []
  | c :: r =>
      match (if bol then heading_at s else None) with
      | Some rest => rest
      | None => c :: remove_heading (is_line_terminator c) r
      end
  end.

(** Lines 195-201: [relevantContent] of a note whose body is [body]. *)
Definition extract_content (body : jsstring) : jsstring :=
  let contentParts0 := split_first true body in
  let relevantContent := trim contentParts0 in
  trim (remove_heading true relevantContent).

(** Whether the heading expression matches somewhere in [s]. *)
Fixpoint has_heading (bol : bool) (s : jsstring) : bool :=
  match s with
  | [] => false
  | c :: r =>
      match (if bol then heading_at s else None) with
      | Some _ => true
      | None => has_heading (is_line_terminator c) r
      end
  end.

(** Whether the separator expression matches somewhere in [s]. *)
Fixpoint has_sep (bol : bool) (s : jsstring) : bool :=
  match s with
  | [] => false
  | c :: r => (bol && sep_at s) || has_sep (is_line_terminator c) r
  end.

(** *** The extraction rule in the words of the specification

    "everything before the first line that consists solely of [---]
    (optionally surrounded by whitespace) on its own line", then "strip one
    leading heading line ... if present at the very start". *)

(** The line at the head of [s] is white space, three dashes, white space. *)
Fixpoint line_is_sep (s : jsstring) : bool :=
  match s with
  | [] => false
  | c :: r =>
      if is_line_terminator c then false
      else if is_space c then line_is_sep r
      else dashes_then_eol s
  end.

Fixpoint spec_before_sep (bol : bool) (s : jsstring) : jsstring :=
  match s with
  | [] => []
  | c :: r =>
      if bol && line_is_sep s then []
      else c :: spec_before_sep (is_line_terminator c) r
  end.

Definition spec_strip_leading_heading (s : jsstring) : jsstring :=
  match heading_at s with
  | Some rest => rest
  | None => s
  end.

Definition spec_extract (body : jsstring) : jsstring :=
  trim (spec_strip_leading_heading (trim (spec_before_sep true body))).

End Extract.
Import Extract.

(** ** Frontmatter values *)

Module Frontmatter.

(** [Number.isSafeInteger(n)]: the integers that a Number holds exactly,
    and that [String] prints in plain decimal. *)
Definition safe_integer (n : Z) : bool :=
  (Z.abs n <=? 9007199254740991)%Z.

(** A YAML scalar as gray-matter hands it to the code: null, a boolean, a
    number or a string.  The numbers of the model are the safe integers;
    fractions and integers beyond 2^53 are left out. *)
Inductive scalar :=
| SNull
| SBool (b : bool)
| SNum (n : Z) (safe : safe_integer n = true)
| SStr (s : jsstring).

(** What [data.tags] can be: missing, a scalar, or a sequence of scalars. *)
Inductive field :=
| Undefined
| Value (v : scalar)
| Array (items : list scalar).

(** [data] of [matter(fileContent)]; [privacy] is read as a scalar when the
    key is present. *)
Record frontmatter := {
  tags : field;
  privacy : option scalar
}.

(** What reading and parsing one source file gives: [readFileSync] throws,
    [matter] throws, or [{ data, content }]. *)
Inductive note_source :=
| ReadError
| ParseError
| Parsed (data : frontmatter) (content : jsstring).

(** ToBoolean *)
Definition truthy (v : scalar) : bool :=
  match v with
  | SNull => false
  | SBool b => b
  | SNum n _ => negb (n =? 0)%Z
  | SStr s => nonempty s
  end.

(** [String(v)] *)
Definition to_String (v : scalar) : jsstring :=
  match v with
  | SNull => str "null"
  | SBool true => str "true"
  | SBool false => str "false"
  | SNum n _ => str (NilZero.string_of_int (Z.to_int n))
  | SStr s => s
  end.

(** [typeof v === "string"] *)
Definition is_string (v : scalar) : bool :=
  match v with SStr _ => true | _ => false end.

(** Equality of two scalars as [Set] and [Array.prototype.includes] see
    it. *)
Definition scalar_eqb (a b : scalar) : bool :=
  match a, b with
  | SNull, SNull => true
  | SBool x, SBool y => Bool.eqb x y
  | SNum x _, SNum y _ => (x =? y)%Z
  | SStr x, SStr y => str_eqb x y
  | _, _ => false
  end.

End Frontmatter.
Import Frontmatter.

(** ** Arrays and sets of the standard library of JavaScript *)

Module JsArray.

Section Generic.
Variable A : Type.
Variable eqb : A -> A -> bool.

(** [arr.includes(x)] *)
Definition includes (arr : list A) (x : A) : bool := existsb (eqb x) arr.

(** [set.add(x)] on a [Set] kept in insertion order. *)
Definition set_add (set : list A) (x : A) : list A :=
  if includes set x then set else set ++ [x].

(** [arr.indexOf(x)], [None] for -1. *)
Fixpoint indexOf (arr : list A) (x : A) : option nat :=
  match arr with
  | [] => None
  | y :: r =>
      if eqb y x then Some 0
      else match indexOf r x with Some i => Some (S i) | None => None end
  end.

Variable leb : A -> A -> bool.

Fixpoint insert (x : A) (l : list A) : list A :=
  match l with
  | [] => [x]
  | y :: r => if leb x y then x :: l else y :: insert x r
  end.

(** [arr.sort()]: the stable sort for the order [leb]. *)
Fixpoint sort (l : list A) : list A :=
  match l with
  | [] => []
  | x :: r => insert x (sort r)
  end.

End Generic.

Arguments includes {A} eqb arr x.
Arguments set_add {A} eqb set x.
Arguments indexOf {A} eqb arr x.
Arguments insert {A} leb x l.
Arguments sort {A} leb l.

(** [arr.join(sep)] on strings. *)
Fixpoint join (sep : jsstring) (arr : list jsstring) : jsstring :=
  match arr with
  | [] => []
  | [x] => x
  | x :: r => x ++ sep ++ join sep r
  end.

End JsArray.
Import JsArray.

(** ** The aggregation engine (aggregate.js, lines 49-248) *)

Module Engine.

(** [path.join], [path.basename(p)] and [path.basename(p, ext)] of Node. *)
Record PathLib := {
  path_join : jsstring -> jsstring -> jsstring;
  path_basename : jsstring -> jsstring;
  path_basename_ext : jsstring -> jsstring -> jsstring
}.

Inductive aggregation_type := AllNotes | SingleTag | MultiTag.

(** [newFrontmatter], lines 98-109. *)
Record new_frontmatter := {
  fm_tags : list jsstring;
  fm_date : jsstring;
  fm_aggregation_type : aggregation_type;
  fm_source_tags : option (list jsstring);
  fm_source_directory : jsstring;
  fm_filter_privacy : list scalar;
  fm_filter_start_date : option jsstring;
  fm_filter_end_date : option jsstring
}.

(** The file system as the code observes it.  [ensured dir] lists the
    paths that [fs.ensureDirSync(dir)] brings into existence: the directory
    and its missing parents, nothing when the directory is there already.
    [can_write p] says that neither [ensureDirSync] nor [writeFileSync]
    throws on the way to [p].  [written] logs the arguments of every
    [matter.stringify] whose result went to [writeFileSync]. *)
Record World := {
  exists_path : jsstring -> bool;
  glob_sync : jsstring -> option (list jsstring);
  read_note : jsstring -> note_source;
  can_write : jsstring -> bool;
  ensured : jsstring -> list jsstring;
  written : list (jsstring * new_frontmatter * jsstring)
}.

Record Options := {
  notesDir : jsstring;
  aggregatesDir : jsstring;
  requiredTags : option (list jsstring);
  allowedPrivacy : list scalar;
  startDate : jsstring;
  endDate : jsstring;
  newNoteTags : list jsstring
}.

(** One constructor for each [throw] of [aggregateNotes], named after the
    taxonomy of the specification. *)
Inductive error :=
| MissingOptions                  (* "Missing required options: ..." *)
| InvalidFilter                   (* "Invalid 'requiredTags' parameter. ..." *)
| OutputCollision (p : jsstring)  (* "File already exists: ..." *)
| GlobFailure                     (* "Error finding files in ..." *)
| EmptySource                     (* "No files found in D matching the criteria" *)
| NoFilesInRange                  (* "No files found in D within the date range [...]" *)
| NoMatchingNotes                 (* "No notes found matching ..." *)
| WriteFailure.                   (* ensureDirSync or writeFileSync throws *)

Inductive result (A : Type) :=
| Ok (a : A)
| Err (e : error).
Arguments Ok {A} a.
Arguments Err {A} e.

Record Summary := {
  outputFile : jsstring;
  filesProcessed : nat;
  notesIncluded : nat
}.

(** Lines 76-89. *)
Definition classify (required : option (list jsstring))
  : aggregation_type * jsstring :=
  match required with
  | None => (AllNotes, str "all")
  | Some [t] => (SingleTag, t)
  | Some _ => (MultiTag, str "multi-tag")
  end.

(** [[a-zA-Z0-9_-]] *)
Definition filename_char (c : ascii) : bool :=
  (Ascii.leb "a" c && Ascii.leb c "z")
  || (Ascii.leb "A" c && Ascii.leb c "Z")
  || is_digit c
  || (c =? "_")%char || (c =? "-")%char.

(** Lines 92-94: [.replace(/[^a-zA-Z0-9_-]/g, "-").toLowerCase()]. *)
Definition sanitize (tag : jsstring) : jsstring :=
  map lower (map (fun c => if filename_char c then c else "-"%char) tag).

Definition safeTagForFilename (o : Options) : jsstring :=
  sanitize (snd (classify (requiredTags o))).

(** Lines 99-101: [.filter((t, i, self) => t && self.indexOf(t) === i)]. *)
Fixpoint unique_truthy_from (self : list jsstring) (i : nat)
  (l : list jsstring) : list jsstring :=
  match l with
  | [] => []
  | t :: r =>
      if nonempty t && match indexOf str_eqb self t with
                       | Some j => (j =? i)%nat
                       | None => false
                       end
      then t :: unique_truthy_from self (S i) r
      else unique_truthy_from self (S i) r
  end.

Definition unique_truthy (self : list jsstring) : list jsstring :=
  unique_truthy_from self 0 self.

(** [s || null] *)
Definition or_null (s : jsstring) : option jsstring :=
  if nonempty s then Some s else None.

Section WithPaths.
Variable P : PathLib.

Definition newFrontmatter (today : jsstring) (o : Options) : new_frontmatter :=
  {| fm_tags :=
       unique_truthy (str "aggregated" :: safeTagForFilename o :: newNoteTags o);
     fm_date := today;
     fm_aggregation_type := fst (classify (requiredTags o));
     fm_source_tags := requiredTags o;
     fm_source_directory := path_basename P (notesDir o);
     fm_filter_privacy := allowedPrivacy o;
     fm_filter_start_date := or_null (startDate o);
     fm_filter_end_date := or_null (endDate o) |}.

(** Lines 112-115. *)
Definition aggregatedFilename (today : jsstring) (o : Options) : jsstring :=
  path_join P (aggregatesDir o)
    (safeTagForFilename o ++ str "-" ++ today ++ str ".md").

(** Lines 136-141, the predicate of the date filter. *)
Definition in_date_range (o : Options) (file : jsstring) : bool :=
  let filenameDate := path_basename_ext P file (str ".md") in
  let afterStart := negb (nonempty (startDate o))
                    || str_geb filenameDate (startDate o) in
  let beforeEnd := negb (nonempty (endDate o))
                   || str_leb filenameDate (endDate o) in
  afterStart && beforeEnd.

Definition has_date_bound (o : Options) : bool :=
  nonempty (startDate o) || nonempty (endDate o).

(** Lines 135-147. *)
Definition date_filter (o : Options) (files : list jsstring) : list jsstring :=
  if has_date_bound o then filter (in_date_range o) files else files.

End WithPaths.

(** Lines 172-175. *)
Definition noteTags (data : frontmatter) : list jsstring :=
  match tags data with
  | Array items => filter nonempty (map (fun t => trim (to_String t)) items)
  | _ => []
  end.

(** Lines 180-183. *)
Definition hasRequiredTag (required : option (list jsstring))
  (data : frontmatter) : bool :=
  match required with
  | None => true
  | Some req =>
      (0 <? List.length (noteTags data))%nat
      && existsb (fun reqTag => includes str_eqb (noteTags data) reqTag) req
  end.

(** Lines 186-188. *)
Definition hasAllowedPrivacy (allowed : list scalar) (data : frontmatter)
  : bool :=
  (List.length allowed =? 0)%nat
  || match privacy data with
     | Some p => truthy p && includes scalar_eqb allowed p
     | None => false
     end.

(** The state of the loop of lines 160-219. *)
Record loop_state := {
  aggregatedContent : list jsstring;
  processedCount : nat;
  includedCount : nat
}.

(** One turn of the loop, lines 166-218. *)
Definition process_file (W : World) (o : Options) (st : loop_state)
  (file : jsstring) : loop_state :=
  let processed := S (processedCount st) in
  let skipped := {| aggregatedContent := aggregatedContent st;
                    processedCount := processed;
                    includedCount := includedCount st |} in
  match read_note W file with
  | ReadError => skipped
  | ParseError => skipped
  | Parsed data originalContent =>
      if hasRequiredTag (requiredTags o) data
         && hasAllowedPrivacy (allowedPrivacy o) data
      then
        let included := S (includedCount st) in
        let relevantContent := extract_content originalContent in
        if nonempty relevantContent
        then {| aggregatedContent := aggregatedContent st ++ [relevantContent];
                processedCount := processed;
                includedCount := included |}
        else {| aggregatedContent := aggregatedContent st;
                processedCount := processed;
                includedCount := included |}
      else skipped
  end.

Definition process_files (W : World) (o : Options) (files : list jsstring)
  : loop_state :=
  fold_left (process_file W o) (sort str_leb files)
    {| aggregatedContent := []; processedCount := 0; includedCount := 0 |}.

(** [fs.ensureDirSync(dir)], line 237: what it creates exists from then
    on, whether or not the write that follows goes through. *)
Definition ensure_dir (W : World) (dir : jsstring) : World :=
  {| exists_path := fun q =>
       existsb (str_eqb q) (ensured W dir) || exists_path W q;
     glob_sync := glob_sync W;
     read_note := read_note W;
     can_write := can_write W;
     ensured := ensured W;
     written := written W |}.

(** [writeFileSync(aggregatedFilename, matter.stringify(body, fm))] *)
Definition write_file (W : World) (p : jsstring) (fm : new_frontmatter)
  (body : jsstring) : World :=
  {| exists_path := fun q => if str_eqb q p then true else exists_path W q;
     glob_sync := glob_sync W;
     read_note := read_note W;
     can_write := can_write W;
     ensured := ensured W;
     written := written W ++ [(p, fm, body)] |}.

(** ["\n\n---\n\n"] *)
Definition separator : jsstring :=
  [nl; nl] ++ str "---" ++ [nl; nl].

(** Lines 66-69: [requiredTags] is an array and it is empty. *)
Definition invalid_required (required : option (list jsstring)) : bool :=
  match required with
  | None => false
  | Some req => (List.length req =? 0)%nat
  end.

Section Aggregate.
Variable P : PathLib.

(** [aggregateNotes(options)], run on the [today]'s date in a world [W];
    the world comes back with the result. *)
Definition aggregateNotes (W : World) (today : jsstring) (o : Options)
  : World * result Summary :=
  if negb (nonempty (notesDir o)) || negb (nonempty (aggregatesDir o))
  then (W, Err MissingOptions)
  else if invalid_required (requiredTags o)
  then (W, Err InvalidFilter)
  else
  let out := aggregatedFilename P today o in
  if exists_path W out then (W, Err (OutputCollision out))
  else
  match glob_sync W (path_join P (notesDir o) (str "*.md")) with
  | None => (W, Err GlobFailure)
  | Some found =>
  let files := date_filter P o found in
  if (List.length files =? 0)%nat
  then (W, Err (if has_date_bound o then NoFilesInRange else EmptySource))
  else
  let st := process_files W o files in
  if (List.length (aggregatedContent st) =? 0)%nat
  then (W, Err NoMatchingNotes)
  else
  let W1 := ensure_dir W (aggregatesDir o) in
  if can_write W out
  then (write_file W1 out (newFrontmatter P today o)
          (join separator (aggregatedContent st)),
        Ok {| outputFile := out;
              filesProcessed := processedCount st;
              notesIncluded := includedCount st |})
  else (W1, Err WriteFailure)
  end.

End Aggregate.

(** The shape of [requiredTags] that the file name depends on. *)
Inductive tag_shape :=
| MatchAll
| OneTag (t : jsstring)
| ManyTags.

Definition shape (required : option (list jsstring)) : tag_shape :=
  match required with
  | None => MatchAll
  | Some [t] => OneTag t
  | Some _ => ManyTags
  end.

Definition valid_options (o : Options) : bool :=
  nonempty (notesDir o) && nonempty (aggregatesDir o)
  && negb (invalid_required (requiredTags o)).

End Engine.
Import Engine.

(** ** The option scanner (aggregate.js, lines 8-46) *)

Module Scanner.

Record available := {
  av_tags : list jsstring;
  av_privacyLevels : list scalar
}.

(** Lines 23-30, for the [data] of one parsed file. *)
Definition collect (data : frontmatter) (acc : list jsstring * list scalar)
  : list jsstring * list scalar :=
  let tagset :=
    match tags data with
    | Array items =>
        fold_left (fun set tag =>
                     match tag with
                     | SStr s => if truthy tag then set_add str_eqb set (trim s)
                                 else set
                     | _ => set
                     end) items (fst acc)
    | _ => fst acc
    end in
  let privset :=
    match privacy data with
    | Some p => if truthy p then set_add scalar_eqb (snd acc) p else snd acc
    | None => snd acc
    end in
  (tagset, privset).

Definition scan_file (W : World) (acc : list jsstring * list scalar)
  (file : jsstring) : list jsstring * list scalar :=
  match read_note W file with
  | Parsed data _ => collect data acc
  | ReadError => acc
  | ParseError => acc
  end.

(** The order of [arr.sort()] without a comparator: by [String(x)]. *)
Definition scalar_leb (a b : scalar) : bool :=
  str_leb (to_String a) (to_String b).

Definition getAvailableOptions (P : PathLib) (W : World) (dir : jsstring)
  : result available :=
  if negb (exists_path W dir)
  then Ok {| av_tags := []; av_privacyLevels := [] |}
  else
    match glob_sync W (path_join P dir (str "*.md")) with
    | None => Err GlobFailure
    | Some files =>
        let sets := fold_left (scan_file W) files ([], []) in
        Ok {| av_tags := sort str_leb (fst sets);
              av_privacyLevels := sort scalar_leb (snd sets) |}
    end.

End Scanner.
Import Scanner.

(** ** Reading the loop file by file *)

Module Selection.

(** The file is read, parsed, and passes the tag and the privacy test. *)
Definition passes (W : World) (o : Options) (file : jsstring) : bool :=
  match read_note W file with
  | Parsed data _ =>
      hasRequiredTag (requiredTags o) data
      && hasAllowedPrivacy (allowedPrivacy o) data
  | _ => false
  end.

(** The file is read and parsed without an exception. *)
Definition readable (W : World) (file : jsstring) : bool :=
  match read_note W file with
  | Parsed _ _ => true
  | _ => false
  end.

(** The file is read and parsed and its extracted content is not empty. *)
Definition has_content (W : World) (file : jsstring) : bool :=
  match read_note W file with
  | Parsed _ content => nonempty (extract_content content)
  | _ => false
  end.

(** What the file adds to [aggregatedContent]. *)
Definition contribution (W : World) (o : Options) (file : jsstring)
  : list jsstring :=
  match read_note W file with
  | Parsed _ content =>
      if passes W o file && nonempty (extract_content content)
      then [extract_content content] else []
  | _ => []
  end.

End Selection.
Import Selection.

(** ** A small vault to run the code on *)

Module Vault.

Fixpoint after_last_slash (acc s : jsstring) : jsstring :=
  match s with
  | [] => acc
  | c :: r => if (c =? "/")%char then after_last_slash r r
              else after_last_slash acc r
  end.

Fixpoint strip_prefix (p s : jsstring) : option jsstring :=
  match p, s with
  | [], _ => Some s
  | x :: p', y :: s' => if (x =? y)%char then strip_prefix p' s' else None
  | _ :: _, [] => None
  end.

(** POSIX paths without [.], [..], doubled or trailing slashes, on which
    Node's [path] functions reduce to these. *)
Definition posix : PathLib :=
  {| path_join := fun a b => a ++ str "/" ++ b;
     path_basename := fun p => after_last_slash p p;
     path_basename_ext := fun p ext =>
       let base := after_last_slash p p in
       match strip_prefix (rev ext) (rev base) with
       | Some r => rev r
       | None => base
       end |}.

Definition note (t : list scalar) (p : option scalar) (body : jsstring)
  : note_source :=
  Parsed {| tags := Array t; privacy := p |} body.

Definition lookup (table : list (jsstring * note_source)) (file : jsstring)
  : note_source :=
  match find (fun e => str_eqb (fst e) file) table with
  | Some e => snd e
  | None => ReadError
  end.

(** A world with the directory [vault/daily] holding the files of
    [table], and nothing else. *)
Definition vault (table : list (jsstring * note_source)) : World :=
  {| exists_path := fun q =>
       str_eqb q (str "vault/daily")
       || existsb (fun e => str_eqb (fst e) q) table;
     glob_sync := fun pat =>
       if str_eqb pat (str "vault/daily/*.md")
       then Some (map fst table) else Some [];
     read_note := lookup table;
     can_write := fun _ => true;
     ensured := fun dir =>
       if str_eqb dir (str "vault/daily")
          || existsb (fun e => str_eqb (fst e) dir) table
       then [] else [dir];
     written := [] |}.

Definition jan01 : jsstring * note_source :=
  (str "vault/daily/2024-01-01.md",
   note [SStr (str "trip")] (Some (SStr (str "public")))
     (unlines ["Went hiking"; "---"; "secret stuff"])).

Definition jan02 : jsstring * note_source :=
  (str "vault/daily/2024-01-02.md",
   note [SStr (str "work")] None (str "Did work")).

(** A note whose text all lies below the separator. *)
Definition jan03 : jsstring * note_source :=
  (str "vault/daily/2024-01-03.md",
   note [SStr (str "trip")] None (unlines ["---"; "kept private"])).

(** A note tagged with the number 2024. *)
Definition jan04 : jsstring * note_source :=
  (str "vault/daily/2024-01-04.md",
   note [SNum 2024 eq_refl] None (str "Year in review")).

Definition request (required : option (list jsstring))
  (allowed : list scalar) (from to : jsstring) : Options :=
  {| notesDir := str "vault/daily";
     aggregatesDir := str "output";
     requiredTags := required;
     allowedPrivacy := allowed;
     startDate := from;
     endDate := to;
     newNoteTags := [] |}.

End Vault.
Import Vault.

(** ** Reading the scanner entry by entry *)

Module Offers.

(** [t] is what the scanner adds for some entry of [data.tags]: the entry
    is a non-empty string and [t] is that string trimmed. *)
Definition tag_entry (data : frontmatter) (t : jsstring) : Prop :=
  exists items s,
    tags data = Array items /\ In (SStr s) items /\ s <> [] /\ t = trim s.

(** [p] is what the scanner adds for [data.privacy]: a truthy value. *)
Definition privacy_entry (data : frontmatter) (p : scalar) : Prop :=
  privacy data = Some p /\ truthy p = true.

End Offers.
Import Offers.

(** ** The heading line in the words of the specification *)

Module ExtractSpec.

(** [YYYY-MM-DD]: four digits, a dash, two digits, a dash, two digits. *)
Definition spec_is_date (d : jsstring) : bool :=
  match d with
  | [y1; y2; y3; y4; h1; m1; m2; h2; d1; d2] =>
      is_digit y1 && is_digit y2 && is_digit y3 && is_digit y4
      && (h1 =? "-")%char && is_digit m1 && is_digit m2
      && (h2 =? "-")%char && is_digit d1 && is_digit d2
  | _ => false
  end.

(** A heading line: two hashes, white space, a date, white space without a
    line feed, and the line feed that ends it. *)
Definition spec_heading_line (m : jsstring) : Prop :=
  exists ws d ws',
    m = str "##" ++ ws ++ d ++ ws' ++ [nl]
    /\ ws <> []
    /\ forallb is_space ws = true
    /\ spec_is_date d = true
    /\ forallb (fun c => is_space c && negb (c =? nl)%char) ws' = true.

(** The text [s] begins with a heading line. *)
Definition starts_heading_line (s : jsstring) : Prop :=
  exists m rest, spec_heading_line m /\ s = m ++ rest.

(** The place right after [pre] is the start of a line, [bol] saying
    whether the place in front of [pre] is one. *)
Fixpoint line_start_after (bol : bool) (pre : jsstring) : bool :=
  match pre with
  | [] => bol
  | c :: r => line_start_after (is_line_terminator c) r
  end.

(** Some line that starts inside [pre] begins, in [pre ++ tail], with a
    match of the heading expression. *)
Fixpoint heading_starts_in (bol : bool) (pre tail : jsstring) : bool :=
  match pre with
  | [] => false
  | c :: r =>
      (bol && match heading_at (pre ++ tail) with
              | Some _ => true
              | None => false
              end)
      || heading_starts_in (is_line_terminator c) r tail
  end.

End ExtractSpec.
Import ExtractSpec.

(** * Properties *)

(** ** Characters and trimming *)

Module JsStringFacts.

Lemma lt_is_space c : is_line_terminator c = true -> is_space c = true.
Proof. unfold is_space; intros ->; reflexivity. Qed.

Lemma not_space_not_lt c : is_space c = false -> is_line_terminator c = false.
Proof.
  intros H; destruct (is_line_terminator c) eqn:E; [|reflexivity].
  apply lt_is_space in E; congruence.
Qed.

Lemma dash_not_lt c : (c =? "-")%char = true -> is_line_terminator c = false.
Proof. intros H; apply Ascii.eqb_eq in H; subst; reflexivity. Qed.

Lemma nl_is_lt c : (c =? nl)%char = true -> is_line_terminator c = true.
Proof. intros H; apply Ascii.eqb_eq in H; subst; reflexivity. Qed.

Lemma str_eqb_eq a b : str_eqb a b = true <-> a = b.
Proof.
  unfold str_eqb; destruct (list_eq_dec ascii_dec a b); split; congruence.
Qed.

Lemma str_eqb_refl a : str_eqb a a = true.
Proof. apply str_eqb_eq; reflexivity. Qed.

Lemma trim_end_spaces w : forallb is_space w = true -> trim_end w = [].
Proof.
  induction w as [|c w IH]; simpl; [reflexivity|].
  intros H; apply andb_true_iff in H as [Hc Hw].
  rewrite (IH Hw), Hc; reflexivity.
Qed.

Lemma trim_end_app_spaces x w :
  forallb is_space w = true -> trim_end (x ++ w) = trim_end x.
Proof.
  intros Hw; induction x as [|c x IH]; simpl.
  - apply trim_end_spaces; assumption.
  - rewrite IH; reflexivity.
Qed.

Lemma trim_start_app_spaces x w :
  forallb is_space w = true ->
  exists w', trim_start (x ++ w) = trim_start x ++ w'
             /\ forallb is_space w' = true.
Proof.
  intros Hw; induction x as [|c x IH]; simpl.
  - exists []; split; [|reflexivity].
    clear -Hw; induction w as [|c w IH]; simpl in *; [reflexivity|].
    apply andb_true_iff in Hw as [Hc Hw]; rewrite Hc; auto.
  - destruct (is_space c); [exact IH|].
    exists w; split; [reflexivity|assumption].
Qed.

Lemma trim_app_spaces x w :
  forallb is_space w = true -> trim (x ++ w) = trim x.
Proof.
  intros Hw; unfold trim.
  destruct (trim_start_app_spaces x w Hw) as (w' & -> & Hw').
  apply trim_end_app_spaces; assumption.
Qed.

(** What [trim_end] removes is white space. *)
Lemma trim_end_split x :
  exists w, x = trim_end x ++ w /\ forallb is_space w = true.
Proof.
  induction x as [|c x (w & Hx & Hw)]; simpl.
  - exists []; auto.
  - destruct (trim_end x) as [|d r] eqn:E.
    + destruct (is_space c) eqn:Ec.
      * exists (c :: w); simpl in *; rewrite Ec, Hw, Hx at 1; auto.
      * exists w; simpl in *; rewrite Hx at 1; auto.
    + exists w; split; [|assumption].
      simpl in *; rewrite Hx at 1; reflexivity.
Qed.

Lemma trim_end_idem s : trim_end (trim_end s) = trim_end s.
Proof.
  induction s as [|c s IH]; simpl; [reflexivity|].
  destruct (trim_end s) as [|d r] eqn:E.
  - destruct (is_space c) eqn:Ec; simpl; [reflexivity|].
    rewrite Ec; reflexivity.
  - change (trim_end (c :: d :: r)) with
      (match trim_end (d :: r) with
       | [] => if is_space c then [] else [c]
       | r' => c :: r'
       end).
    rewrite IH; reflexivity.
Qed.

Lemma trim_start_head s :
  match trim_start s with [] => True | c :: _ => is_space c = false end.
Proof.
  induction s as [|c s IH]; simpl; [exact I|].
  destruct (is_space c) eqn:E; [exact IH|exact E].
Qed.

Lemma trim_start_trim_end s :
  match s with [] => True | c :: _ => is_space c = false end ->
  trim_start (trim_end s) = trim_end s.
Proof.
  destruct s as [|c s]; simpl; [reflexivity|]; intros Hc.
  destruct (trim_end s); simpl; rewrite ?Hc; simpl; rewrite ?Hc; reflexivity.
Qed.

Lemma trim_idem s : trim (trim s) = trim s.
Proof.
  unfold trim.
  rewrite (trim_start_trim_end (trim_start s) (trim_start_head s)).
  apply trim_end_idem.
Qed.

End JsStringFacts.
Import JsStringFacts.

(** ** Content extraction *)

Module ExtractFacts.

(** *** The separator: the expression against the line-by-line reading *)

Lemma line_is_sep_sep_at s : line_is_sep s = true -> sep_at s = true.
Proof.
  induction s as [|c s IH]; simpl; [congruence|].
  destruct (is_line_terminator c) eqn:El; [congruence|].
  destruct (is_space c); auto.
Qed.

(** From a place where the expression matches, up to the separator line
    itself, there is only white space. *)
Lemma blank_up_to_sep s : forall bol,
  sep_at s = true ->
  bol = true \/ line_is_sep s = false ->
  forallb is_space (spec_before_sep bol s) = true.
Proof.
  induction s as [|c s IH]; intros bol Hsep Hb; [reflexivity|].
  cbn [spec_before_sep].
  destruct (bol && line_is_sep (c :: s)) eqn:Hcut; [reflexivity|].
  assert (Hline : line_is_sep (c :: s) = false).
  { destruct Hb as [-> | Hb]; [exact Hcut | exact Hb]. }
  cbn [sep_at] in Hsep. cbn [line_is_sep] in Hline.
  destruct (is_space c) eqn:Ec.
  - cbn [forallb]; rewrite Ec; cbn [andb].
    apply IH; [assumption|].
    destruct (is_line_terminator c); [left; reflexivity | right; assumption].
  - rewrite (not_space_not_lt c Ec) in Hline; congruence.
Qed.

Lemma spec_before_sep_split_first s : forall bol,
  exists w, spec_before_sep bol s = split_first bol s ++ w
            /\ forallb is_space w = true.
Proof.
  induction s as [|c s IH]; intros bol.
  - exists []; auto.
  - cbn [split_first].
    destruct (bol && sep_at (c :: s)) eqn:Hcut.
    + apply andb_true_iff in Hcut as [-> Hsep].
      exists (spec_before_sep true (c :: s)); split; [reflexivity|].
      apply blank_up_to_sep; auto.
    + cbn [spec_before_sep].
      destruct (bol && line_is_sep (c :: s)) eqn:Hline.
      * apply andb_true_iff in Hline as [-> Hline].
        apply line_is_sep_sep_at in Hline; cbn [andb] in Hcut; congruence.
      * destruct (IH (is_line_terminator c)) as (w & -> & Hw).
        exists w; auto.
Qed.

(** *** How [sep_at] looks at a text cut after a line terminator *)

Lemma eol_after_ws_cut w t v :
  is_line_terminator t = true ->
  eol_after_ws (w ++ t :: v) = eol_after_ws (w ++ [t]).
Proof.
  intros Ht; induction w as [|c w IH]; simpl.
  - rewrite Ht; reflexivity.
  - rewrite IH; reflexivity.
Qed.

Lemma dashes_then_eol_cut w t v :
  is_line_terminator t = true ->
  dashes_then_eol (w ++ t :: v) = dashes_then_eol (w ++ [t]).
Proof.
  intros Ht.
  assert (Hd : (t =? "-")%char = false).
  { destruct (t =? "-")%char eqn:E; [|reflexivity].
    apply dash_not_lt in E; congruence. }
  destruct w as [|a [|b [|c w]]]; simpl.
  - destruct v as [|x [|y v]]; rewrite ?Hd; reflexivity.
  - destruct v; rewrite ?Hd, ?andb_false_r; reflexivity.
  - rewrite Hd, !andb_false_r; reflexivity.
  - rewrite (eol_after_ws_cut w t v Ht); reflexivity.
Qed.

Lemma sep_at_cut u t v :
  is_line_terminator t = true ->
  sep_at (u ++ t :: v)
  = sep_at (u ++ [t]) || (forallb is_space u && sep_at v).
Proof.
  intros Ht; induction u as [|c u IH].
  - simpl; rewrite (lt_is_space t Ht); reflexivity.
  - change ((c :: u) ++ t :: v) with (c :: (u ++ t :: v)).
    change ((c :: u) ++ [t]) with (c :: (u ++ [t])).
    cbn [sep_at forallb].
    destruct (is_space c) eqn:Ec.
    + rewrite IH; reflexivity.
    + cbn [andb]; rewrite orb_false_r.
      apply (dashes_then_eol_cut (c :: u) t v Ht).
Qed.

Lemma has_sep_true s bol : has_sep true s = sep_at s || has_sep bol s.
Proof.
  destruct s as [|c s]; [reflexivity|].
  cbn [has_sep]; destruct bol; cbn [andb].
  - destruct (sep_at (c :: s)); reflexivity.
  - rewrite orb_false_l; reflexivity.
Qed.

Lemma has_sep_true_false s bol : has_sep true s = false -> has_sep bol s = false.
Proof.
  rewrite (has_sep_true s bol); intros H; apply orb_false_iff in H; tauto.
Qed.

Lemma has_sep_after pre : forall bol t rest,
  is_line_terminator t = true ->
  has_sep bol (pre ++ t :: rest) = false -> has_sep true rest = false.
Proof.
  induction pre as [|c pre IH]; intros bol t rest Ht H.
  - cbn [app has_sep] in H; apply orb_false_iff in H as [_ H].
    rewrite Ht in H; exact H.
  - change ((c :: pre) ++ t :: rest) with (c :: (pre ++ t :: rest)) in H.
    cbn [has_sep] in H; apply orb_false_iff in H as [_ H].
    exact (IH _ _ _ Ht H).
Qed.

(** *** No separator is left in what [split] returns first *)

Lemma sep_at_split_first r : forall u t,
  sep_at (u ++ t :: r) = false ->
  sep_at (u ++ t :: split_first (is_line_terminator t) r) = false.
Proof.
  induction r as [|d r IH]; intros u t H; [exact H|].
  cbn [split_first].
  destruct (is_line_terminator t && sep_at (d :: r)) eqn:Hcut.
  - apply andb_true_iff in Hcut as [Ht Hsep].
    rewrite (sep_at_cut u t (d :: r) Ht) in H.
    apply orb_false_iff in H; tauto.
  - specialize (IH (u ++ [t]) d).
    rewrite <- !app_assoc in IH; apply IH; exact H.
Qed.

Lemma has_sep_split_first s : forall bol,
  has_sep bol (split_first bol s) = false.
Proof.
  induction s as [|c s IH]; intros bol; [reflexivity|].
  cbn [split_first].
  destruct (bol && sep_at (c :: s)) eqn:Hcut; [reflexivity|].
  cbn [has_sep]; rewrite IH, orb_false_r.
  destruct bol; [|reflexivity].
  cbn [andb] in *.
  apply (sep_at_split_first s [] c); exact Hcut.
Qed.

Lemma split_first_no_sep s : forall bol,
  has_sep bol s = false -> split_first bol s = s.
Proof.
  induction s as [|c s IH]; intros bol H; [reflexivity|].
  cbn [has_sep] in H; apply orb_false_iff in H as [H1 H2].
  cbn [split_first]; rewrite H1, (IH _ H2); reflexivity.
Qed.

(** *** Trimming brings no separator in *)

Lemma has_sep_trim_start s :
  has_sep true s = false -> has_sep true (trim_start s) = false.
Proof.
  induction s as [|c s IH]; intros H; [reflexivity|].
  cbn [trim_start]; destruct (is_space c) eqn:Ec; [|exact H].
  apply IH.
  cbn [has_sep andb sep_at] in H; rewrite Ec in H.
  apply orb_false_iff in H as [H1 H2].
  rewrite (has_sep_true s (is_line_terminator c)), H1, H2; reflexivity.
Qed.

Lemma eol_after_ws_spaces w : forallb is_space w = true -> eol_after_ws w = true.
Proof.
  induction w as [|c w IH]; simpl; [reflexivity|].
  intros H; apply andb_true_iff in H as [Hc Hw].
  rewrite Hc, (IH Hw); destruct (is_line_terminator c); reflexivity.
Qed.

Lemma eol_after_ws_app t w :
  forallb is_space w = true ->
  eol_after_ws t = true -> eol_after_ws (t ++ w) = true.
Proof.
  intros Hw; induction t as [|c t IH]; simpl.
  - intros _; apply eol_after_ws_spaces; assumption.
  - destruct (is_line_terminator c); [reflexivity|].
    destruct (is_space c); [exact IH|congruence].
Qed.

Lemma sep_at_app u w :
  forallb is_space w = true -> sep_at u = true -> sep_at (u ++ w) = true.
Proof.
  intros Hw; induction u as [|c u IH]; [simpl; congruence|].
  change ((c :: u) ++ w) with (c :: (u ++ w)).
  cbn [sep_at]; destruct (is_space c); [exact IH|].
  destruct u as [|a [|b u]]; simpl; try congruence.
  intros H; apply andb_true_iff in H as [H1 H2].
  rewrite H1; apply eol_after_ws_app; assumption.
Qed.

Lemma has_sep_app u w : forall bol,
  forallb is_space w = true ->
  has_sep bol u = true -> has_sep bol (u ++ w) = true.
Proof.
  induction u as [|c u IH]; intros bol Hw H; [simpl in H; congruence|].
  change ((c :: u) ++ w) with (c :: (u ++ w)).
  cbn [has_sep] in *.
  apply orb_true_iff in H as [H | H]; apply orb_true_iff.
  - left. apply andb_true_iff in H as [-> H].
    apply (sep_at_app (c :: u) w Hw H).
  - right; apply IH; assumption.
Qed.

Lemma has_sep_trim_end s bol :
  has_sep bol s = false -> has_sep bol (trim_end s) = false.
Proof.
  intros H; destruct (trim_end_split s) as (w & Hs & Hw).
  destruct (has_sep bol (trim_end s)) eqn:E; [|reflexivity].
  apply (has_sep_app (trim_end s) w bol Hw) in E.
  rewrite <- Hs in E; congruence.
Qed.

Lemma has_sep_trim s : has_sep true s = false -> has_sep true (trim s) = false.
Proof.
  intros H; apply has_sep_trim_end, has_sep_trim_start, H.
Qed.

(** *** Removing the heading brings no separator in *)

Lemma expect_inv c s r : expect c s = Some r -> s = c :: r.
Proof.
  destruct s as [|d s]; simpl; [congruence|].
  destruct (Ascii.eqb_spec d c); intros H; inversion H; subst; reflexivity.
Qed.

Lemma digits_suffix n : forall s r,
  digits n s = Some r -> exists pre, s = pre ++ r.
Proof.
  induction n as [|n IH]; intros s r H; simpl in H.
  - inversion H; exists []; reflexivity.
  - destruct s as [|c s]; [congruence|].
    destruct (is_digit c); [|congruence].
    destruct (IH _ _ H) as (pre & ->); exists (c :: pre); reflexivity.
Qed.

Lemma trim_start_suffix s : exists pre, s = pre ++ trim_start s.
Proof.
  induction s as [|c s (pre & IH)]; simpl.
  - exists []; reflexivity.
  - destruct (is_space c).
    + exists (c :: pre); simpl; rewrite <- IH; reflexivity.
    + exists []; reflexivity.
Qed.

Lemma lazy_ws_nl_suffix s : forall r,
  lazy_ws_nl s = Some r -> exists pre, s = pre ++ nl :: r.
Proof.
  induction s as [|c s IH]; intros r H; simpl in H; [congruence|].
  destruct (Ascii.eqb_spec c nl) as [-> | _].
  - inversion H; exists []; reflexivity.
  - destruct (is_space c); [|congruence].
    destruct (IH _ H) as (pre & ->); exists (c :: pre); reflexivity.
Qed.

Lemma date_at_suffix s r : date_at s = Some r -> exists pre, s = pre ++ r.
Proof.
  unfold date_at, bind; intros H.
  destruct (digits 4 s) as [s1|] eqn:E1; [|congruence].
  destruct (expect "-" s1) as [s2|] eqn:E2; [|congruence].
  destruct (digits 2 s2) as [s3|] eqn:E3; [|congruence].
  destruct (expect "-" s3) as [s4|] eqn:E4; [|congruence].
  apply digits_suffix in E1 as (p1 & ->), E3 as (p3 & ->), H as (p5 & ->).
  apply expect_inv in E2 as ->, E4 as ->.
  exists (p1 ++ "-"%char :: p3 ++ "-"%char :: p5).
  repeat (rewrite <- ?app_assoc; cbn [app]); reflexivity.
Qed.

(** A match of the heading expression ends with its line feed. *)
Lemma heading_at_suffix s r :
  heading_at s = Some r -> exists pre, s = pre ++ nl :: r.
Proof.
  unfold heading_at, bind; intros H.
  destruct (expect "#" s) as [s1|] eqn:E1; [|congruence].
  destruct (expect "#" s1) as [s2|] eqn:E2; [|congruence].
  apply expect_inv in E1 as ->, E2 as ->.
  destruct s2 as [|w s2]; [congruence|].
  destruct (is_space w); [|congruence].
  destruct (date_at (trim_start (w :: s2))) as [s3|] eqn:E3; [|congruence].
  destruct (trim_start_suffix (w :: s2)) as (p1 & Hp1).
  apply date_at_suffix in E3 as (p2 & E3).
  apply lazy_ws_nl_suffix in H as (p3 & ->).
  exists ("#"%char :: "#"%char :: p1 ++ p2 ++ p3).
  rewrite Hp1, E3.
  repeat (rewrite <- ?app_assoc; cbn [app]); reflexivity.
Qed.

Lemma sep_at_remove_heading r : forall u t,
  has_sep (is_line_terminator t) r = false ->
  sep_at (u ++ t :: r) = false ->
  sep_at (u ++ t :: remove_heading (is_line_terminator t) r) = false.
Proof.
  induction r as [|d r IH]; intros u t Hr H; [exact H|].
  cbn [remove_heading].
  destruct (if is_line_terminator t then heading_at (d :: r) else None)
    as [rest|] eqn:Hm.
  - destruct (is_line_terminator t) eqn:Ht; [|congruence].
    apply heading_at_suffix in Hm as (pre & Hpre).
    rewrite Hpre in Hr.
    apply has_sep_after in Hr; [|reflexivity].
    rewrite (has_sep_true rest true) in Hr.
    apply orb_false_iff in Hr as [Hrest _].
    rewrite (sep_at_cut u t (d :: r) Ht) in H.
    rewrite (sep_at_cut u t rest Ht).
    apply orb_false_iff in H as [H _].
    rewrite H, Hrest, andb_false_r; reflexivity.
  - cbn [has_sep] in Hr; apply orb_false_iff in Hr as [_ Hr].
    specialize (IH (u ++ [t]) d Hr).
    rewrite <- !app_assoc in IH; apply IH; exact H.
Qed.

Lemma has_sep_remove_heading s : forall bol,
  has_sep bol s = false -> has_sep bol (remove_heading bol s) = false.
Proof.
  induction s as [|c s IH]; intros bol H; [reflexivity|].
  cbn [remove_heading].
  destruct (if bol then heading_at (c :: s) else None) as [rest|] eqn:Hm.
  - destruct bol; [|congruence].
    apply heading_at_suffix in Hm as (pre & Hpre).
    rewrite Hpre in H; apply has_sep_after in H; [exact H|reflexivity].
  - cbn [has_sep] in *; apply orb_false_iff in H as [H1 H2].
    rewrite (IH _ H2), orb_false_r.
    destruct bol; [|reflexivity].
    cbn [andb] in *.
    apply (sep_at_remove_heading s [] c H2 H1).
Qed.

Lemma remove_heading_no_heading s : forall bol,
  has_heading bol s = false -> remove_heading bol s = s.
Proof.
  induction s as [|c s IH]; intros bol H; [reflexivity|].
  cbn [has_heading remove_heading] in *.
  destruct (if bol then heading_at (c :: s) else None); [congruence|].
  rewrite (IH _ H); reflexivity.
Qed.

(** What extraction returns holds no separator line. *)
Lemma extract_content_no_sep body :
  has_sep true (extract_content body) = false.
Proof.
  unfold extract_content.
  apply has_sep_trim, has_sep_remove_heading, has_sep_trim.
  apply has_sep_split_first.
Qed.

(** C3 as written fails: a date heading on a later line of the content is
    removed, where the claim leaves it intact. *)
Lemma later_heading_is_stripped :
  extract_content (unlines ["Intro"; "## 2024-01-01"; "more"])
  = unlines ["Intro"; "more"]
  /\ spec_extract (unlines ["Intro"; "## 2024-01-01"; "more"])
     = unlines ["Intro"; "## 2024-01-01"; "more"]
  /\ extract_content (unlines ["Intro"; "## 2024-01-01"; "more"])
     <> spec_extract (unlines ["Intro"; "## 2024-01-01"; "more"]).
Proof.
  split; [reflexivity|]; split; [reflexivity|].
  vm_compute; discriminate.
Qed.

(** *** The heading: the expression against the words *)

Lemma digit_not_space c : is_digit c = true -> is_space c = false.
Proof.
  destruct c as [[] [] [] [] [] [] [] []]; vm_compute; congruence.
Qed.

Lemma heading_at_unfold w r :
  heading_at ("#"%char :: "#"%char :: w :: r)
  = if is_space w
    then bind (date_at (trim_start (w :: r))) lazy_ws_nl
    else None.
Proof. reflexivity. Qed.

Lemma trim_start_split s :
  exists ws, s = ws ++ trim_start s /\ forallb is_space ws = true.
Proof.
  induction s as [|c s (ws & IH & Hws)]; simpl.
  - exists []; auto.
  - destruct (is_space c) eqn:Ec.
    + exists (c :: ws); simpl; rewrite Ec, Hws, <- IH; auto.
    + exists []; auto.
Qed.

Lemma trim_start_skip ws x :
  forallb is_space ws = true -> trim_start (ws ++ x) = trim_start x.
Proof.
  induction ws as [|c ws IH]; simpl; [reflexivity|].
  intros H; apply andb_true_iff in H as [-> Hws]; apply IH; exact Hws.
Qed.

Lemma lazy_ws_nl_words s : forall rest,
  lazy_ws_nl s = Some rest ->
  exists ws', s = ws' ++ nl :: rest
              /\ forallb (fun c => is_space c && negb (c =? nl)%char) ws'
                 = true.
Proof.
  induction s as [|c s IH]; intros rest H; simpl in H; [discriminate|].
  destruct (c =? nl)%char eqn:Ec.
  - apply Ascii.eqb_eq in Ec; subst c; inversion H; exists []; auto.
  - destruct (is_space c) eqn:Es; [|discriminate].
    destruct (IH _ H) as (ws' & -> & Hws).
    exists (c :: ws'); simpl; rewrite Es, Ec, Hws; auto.
Qed.

Lemma lazy_ws_nl_of_words ws' rest :
  forallb (fun c => is_space c && negb (c =? nl)%char) ws' = true ->
  lazy_ws_nl (ws' ++ nl :: rest) = Some rest.
Proof.
  induction ws' as [|c ws' IH]; simpl.
  - intros _; reflexivity.
  - intros H; apply andb_true_iff in H as [Hc Hws].
    apply andb_true_iff in Hc as [Hs Hn]; apply negb_true_iff in Hn.
    rewrite Hn, Hs; apply IH; exact Hws.
Qed.

Lemma date_at_of_words d r :
  spec_is_date d = true -> date_at (d ++ r) = Some r.
Proof.
  destruct d as [|y1 [|y2 [|y3 [|y4 [|h1 [|m1 [|m2 [|h2 [|d1 [|d2 [|x d]]]]]]]]]]];
    try discriminate.
  unfold spec_is_date; intros H.
  do 9 (apply andb_true_iff in H as [H ?]).
  unfold date_at, bind; cbn [app digits expect].
  repeat (match goal with
          | E : ?b = true |- context [?b] => rewrite E
          end; cbn [digits expect]).
  reflexivity.
Qed.

Lemma date_at_words s r :
  date_at s = Some r -> exists d, s = d ++ r /\ spec_is_date d = true.
Proof.
  unfold date_at, bind; intros H.
  destruct (digits 4 s) as [s1|] eqn:E1; [|discriminate].
  destruct (expect "-" s1) as [s2|] eqn:E2; [|discriminate].
  destruct (digits 2 s2) as [s3|] eqn:E3; [|discriminate].
  destruct (expect "-" s3) as [s4|] eqn:E4; [|discriminate].
  apply expect_inv in E2, E4; subst s1 s3.
  destruct s as [|y1 [|y2 [|y3 [|y4 s]]]]; cbn [digits] in E1;
    try discriminate;
    repeat match type of E1 with
           | (if ?b then _ else _) = _ => destruct b eqn:?; [|discriminate]
           end; try discriminate.
  inversion E1; subst s; clear E1.
  destruct s2 as [|m1 [|m2 s2]]; cbn [digits] in E3; try discriminate;
    repeat match type of E3 with
           | (if ?b then _ else _) = _ => destruct b eqn:?; [|discriminate]
           end; try discriminate.
  inversion E3; subst s2; clear E3.
  destruct s4 as [|d1 [|d2 s4]]; cbn [digits] in H; try discriminate;
    repeat match type of H with
           | (if ?b then _ else _) = _ => destruct b eqn:?; [|discriminate]
           end; try discriminate.
  inversion H; subst s4; clear H.
  exists [y1; y2; y3; y4; "-"%char; m1; m2; "-"%char; d1; d2].
  split; [reflexivity|].
  unfold spec_is_date.
  repeat match goal with
         | E : ?b = true |- context [?b] => rewrite E
         end.
  reflexivity.
Qed.

(** The heading expression matches at the head of a text exactly when the
    text begins with a heading line, and what follows the match is what
    follows the line. *)
Lemma heading_at_of_words m rest :
  spec_heading_line m -> heading_at (m ++ rest) = Some rest.
Proof.
  intros (ws & d & ws' & -> & Hne & Hws & Hd & Hws').
  destruct ws as [|w ws]; [congruence|].
  cbn [forallb] in Hws; apply andb_true_iff in Hws as [Hw Hws].
  repeat (rewrite <- ?app_assoc; cbn [app str list_ascii_of_string]).
  rewrite heading_at_unfold, Hw.
  cbn [trim_start]; rewrite Hw, (trim_start_skip ws _ Hws).
  assert (Ht : forall x, trim_start (d ++ x) = d ++ x).
  { intros x; destruct d as [|y d]; [discriminate|].
    unfold spec_is_date in Hd.
    destruct d as [|y2 [|y3 [|y4 [|h1 [|m1 [|m2 [|h2 [|d1 [|d2 [|z d]]]]]]]]]];
      try discriminate.
    do 9 (apply andb_true_iff in Hd as [Hd ?]).
    cbn [app trim_start]; rewrite (digit_not_space y Hd); reflexivity. }
  rewrite Ht, (date_at_of_words d _ Hd); cbn [bind].
  apply lazy_ws_nl_of_words; exact Hws'.
Qed.

Lemma heading_at_words s rest :
  heading_at s = Some rest -> exists m, spec_heading_line m /\ s = m ++ rest.
Proof.
  intros H.
  assert (Es : exists w r, s = "#"%char :: "#"%char :: w :: r).
  { unfold heading_at, bind in H.
    destruct (expect "#" s) as [s1|] eqn:E1; [|discriminate].
    destruct (expect "#" s1) as [s2|] eqn:E2; [|discriminate].
    apply expect_inv in E1, E2; subst s s1.
    destruct s2 as [|w r]; [discriminate|]; exists w, r; reflexivity. }
  destruct Es as (w & r & ->).
  rewrite heading_at_unfold in H.
  destruct (is_space w) eqn:Hw; [|discriminate].
  cbn [trim_start] in H; rewrite Hw in H.
  destruct (date_at (trim_start r)) as [s3|] eqn:Hdate; [|discriminate].
  cbn [bind] in H.
  destruct (trim_start_split r) as (ws & Hr & Hws).
  apply date_at_words in Hdate as (d & Hd & Hdate).
  apply lazy_ws_nl_words in H as (ws' & -> & Hws').
  exists (str "##" ++ (w :: ws) ++ d ++ ws' ++ [nl]); split.
  - exists (w :: ws), d, ws'; repeat split; try assumption.
    + discriminate.
    + cbn [forallb]; rewrite Hw, Hws; reflexivity.
  - rewrite Hr, Hd.
    repeat (rewrite <- ?app_assoc; cbn [app str list_ascii_of_string]).
    reflexivity.
Qed.

(** *** Where the heading is removed *)

Lemma remove_heading_first pre : forall bol tail rest,
  heading_at tail = Some rest ->
  line_start_after bol pre = true ->
  (forall p1 p2, pre = p1 ++ p2 -> p2 <> [] ->
                 line_start_after bol p1 = true ->
                 heading_at (p2 ++ tail) = None) ->
  remove_heading bol (pre ++ tail) = pre ++ rest.
Proof.
  induction pre as [|c pre IH]; intros bol tail rest Hm Hs Hno.
  - cbn [line_start_after] in Hs; subst bol; cbn [app].
    destruct tail as [|x tail]; [discriminate|].
    cbn [remove_heading]; rewrite Hm; reflexivity.
  - cbn [app remove_heading].
    replace (if bol then heading_at (c :: pre ++ tail) else None)
      with (@None jsstring).
    + rewrite (IH (is_line_terminator c) tail rest Hm Hs); [reflexivity|].
      intros p1 p2 E Hne Hp1.
      apply (Hno (c :: p1) p2); [rewrite E; reflexivity | exact Hne | exact Hp1].
    + destruct bol; [|reflexivity].
      symmetry; apply (Hno [] (c :: pre)); [reflexivity | discriminate |].
      reflexivity.
Qed.

Lemma has_heading_nowhere s : forall bol,
  (forall p1 p2, s = p1 ++ p2 -> line_start_after bol p1 = true ->
                 heading_at p2 = None) ->
  has_heading bol s = false.
Proof.
  induction s as [|c s IH]; intros bol Hno; [reflexivity|].
  cbn [has_heading].
  replace (if bol then heading_at (c :: s) else None) with (@None jsstring).
  - apply IH; intros p1 p2 E Hp1.
    apply (Hno (c :: p1) p2); [rewrite E; reflexivity | exact Hp1].
  - destruct bol; [|reflexivity].
    symmetry; apply (Hno [] (c :: s)); reflexivity.
Qed.

(** The test on the places in front of a heading, run as a computation. *)
Lemma heading_starts_in_none pre : forall bol tail,
  heading_starts_in bol pre tail = false ->
  forall p1 p2, pre = p1 ++ p2 -> p2 <> [] ->
                line_start_after bol p1 = true ->
                ~ starts_heading_line (p2 ++ tail).
Proof.
  induction pre as [|c pre IH]; intros bol tail H p1 p2 E Hne Hp1.
  - destruct p1, p2; try discriminate; congruence.
  - cbn [heading_starts_in] in H; apply orb_false_iff in H as [H1 H2].
    destruct p1 as [|x p1].
    + cbn [app] in E; subst p2; cbn [line_start_after] in Hp1; subst bol.
      intros (m & rest & Hm & Em).
      change ((c :: pre) ++ tail) with (c :: pre ++ tail) in *.
      rewrite Em, (heading_at_of_words m rest Hm) in H1; discriminate.
    + inversion E; subst x pre.
      apply (IH (is_line_terminator c) tail H2 p1 p2); auto.
Qed.

(** C3, amended: the extracted content is the text before the first line
    that holds only [---] and white space (the whole body when there is no
    such line), trimmed; from it the first heading line ([##], white space,
    [YYYY-MM-DD], optional white space, line feed) that starts any of its
    lines, the first line or a later one, is removed; the result is
    trimmed.  When no line of it starts a heading line, the trimmed text is
    the content. *)
Theorem extract_content_by_lines (body : jsstring) :
  extract_content body
  = trim (remove_heading true (trim (spec_before_sep true body)))
  /\ (forall rest,
        heading_at (trim (spec_before_sep true body)) = Some rest ->
        extract_content body = trim rest)
  /\ (forall pre m rest,
        trim (spec_before_sep true body) = pre ++ m ++ rest ->
        line_start_after true pre = true ->
        spec_heading_line m ->
        (forall p1 p2, pre = p1 ++ p2 -> p2 <> [] ->
                       line_start_after true p1 = true ->
                       ~ starts_heading_line (p2 ++ m ++ rest)) ->
        extract_content body = trim (pre ++ rest))
  /\ ((forall p1 p2,
         trim (spec_before_sep true body) = p1 ++ p2 ->
         line_start_after true p1 = true ->
         ~ starts_heading_line p2) ->
      extract_content body = trim (spec_before_sep true body)).
Proof.
  assert (E : trim (split_first true body) = trim (spec_before_sep true body)).
  { destruct (spec_before_sep_split_first body true) as (w & -> & Hw).
    symmetry; apply trim_app_spaces; assumption. }
  unfold extract_content; rewrite E; split; [reflexivity|].
  split; [|split].
  - intros rest H.
    destruct (trim (spec_before_sep true body)) as [|c s]; [discriminate|].
    cbn [remove_heading]; rewrite H; reflexivity.
  - intros pre m rest Ec Hpre Hm Hno; rewrite Ec.
    rewrite (remove_heading_first pre true (m ++ rest) rest
               (heading_at_of_words m rest Hm) Hpre); [reflexivity|].
    intros p1 p2 E1 Hne Hp1.
    destruct (heading_at (p2 ++ m ++ rest)) as [r|] eqn:Eh; [|reflexivity].
    apply heading_at_words in Eh as (m' & Hm' & Em').
    elim (Hno p1 p2 E1 Hne Hp1); exists m', r; auto.
  - intros Hno.
    rewrite (remove_heading_no_heading _ true); [apply trim_idem|].
    apply has_heading_nowhere; intros p1 p2 E1 Hp1.
    destruct (heading_at p2) as [r|] eqn:Eh; [|reflexivity].
    apply heading_at_words in Eh as (m' & Hm' & Em').
    elim (Hno p1 p2 E1 Hp1); exists m', r; auto.
Qed.

Lemma extract_content_by_lines_witness :
  extract_content (unlines ["Intro"; "## 2024-01-01"; "more"])
  = trim (unlines ["Intro"; ""] ++ str "more")
  /\ extract_content
       (unlines ["## 2024-01-01"; "Went hiking"; " --- "; "secret"])
     = trim (str "Went hiking").
Proof.
  split.
  - apply (proj1 (proj2 (proj2 (extract_content_by_lines
             (unlines ["Intro"; "## 2024-01-01"; "more"]))))
             (unlines ["Intro"; ""]) (unlines ["## 2024-01-01"; ""])
             (str "more")).
    + reflexivity.
    + reflexivity.
    + exists (str " "), (str "2024-01-01"), [].
      repeat split; try reflexivity; discriminate.
    + apply (heading_starts_in_none (unlines ["Intro"; ""]) true).
      reflexivity.
  - apply (proj1 (proj2 (extract_content_by_lines
      (unlines ["## 2024-01-01"; "Went hiking"; " --- "; "secret"])))).
    reflexivity.
Defined.

(** C8 as written fails: extraction removes one heading at a time, so a
    second run on its own output removes the next one. *)
Lemma extract_twice_differs :
  extract_content (unlines ["## 2024-01-01"; "## 2024-01-02"; "text"])
  = unlines ["## 2024-01-02"; "text"]
  /\ extract_content
       (extract_content (unlines ["## 2024-01-01"; "## 2024-01-02"; "text"]))
     = str "text"
  /\ extract_content
       (extract_content (unlines ["## 2024-01-01"; "## 2024-01-02"; "text"]))
     <> extract_content (unlines ["## 2024-01-01"; "## 2024-01-02"; "text"]).
Proof.
  split; [reflexivity|]; split; [reflexivity|].
  vm_compute; discriminate.
Qed.

Lemma trim_length s : List.length (trim s) <= List.length s.
Proof.
  unfold trim.
  destruct (trim_start_suffix s) as (pre & Hs).
  destruct (trim_end_split (trim_start s)) as (w & Ht & _).
  rewrite Hs at 2; rewrite Ht at 2; rewrite !length_app; lia.
Qed.

Lemma remove_heading_shorter s : forall bol,
  has_heading bol s = true ->
  List.length (remove_heading bol s) < List.length s.
Proof.
  induction s as [|c s IH]; intros bol H; [discriminate|].
  cbn [has_heading remove_heading] in *.
  destruct (if bol then heading_at (c :: s) else None) as [rest|] eqn:Hm.
  - destruct bol; [|discriminate].
    apply heading_at_suffix in Hm as (pre & ->).
    rewrite length_app; cbn [List.length]; lia.
  - cbn [List.length]; specialize (IH _ H); lia.
Qed.

(** C8, amended: extraction is a function of the body text alone.
    Applied to its own output it finds no separator and nothing to trim,
    and removes the first date heading that starts a line of the output:
    the output comes back unchanged exactly when no line of it starts a
    date heading, and shorter otherwise. *)
Theorem extract_content_idempotent (body : jsstring) :
  extract_content (extract_content body)
  = trim (remove_heading true (extract_content body))
  /\ (extract_content (extract_content body) = extract_content body
      <-> has_heading true (extract_content body) = false)
  /\ (has_heading true (extract_content body) = true ->
      List.length (extract_content (extract_content body))
      < List.length (extract_content body)).
Proof.
  assert (T : trim (extract_content body) = extract_content body).
  { unfold extract_content; apply trim_idem. }
  assert (F : extract_content (extract_content body)
              = trim (remove_heading true (extract_content body))).
  { unfold extract_content at 1.
    rewrite (split_first_no_sep _ true (extract_content_no_sep body)), T.
    reflexivity. }
  assert (L : has_heading true (extract_content body) = true ->
              List.length (extract_content (extract_content body))
              < List.length (extract_content body)).
  { intros H; rewrite F.
    pose proof (trim_length (remove_heading true (extract_content body))).
    pose proof (remove_heading_shorter (extract_content body) true H).
    lia. }
  split; [exact F|]; split; [|exact L].
  split.
  - intros E.
    destruct (has_heading true (extract_content body)); [|reflexivity].
    specialize (L eq_refl); rewrite E in L; lia.
  - intros H; rewrite F, (remove_heading_no_heading _ true H); exact T.
Qed.

Lemma extract_content_idempotent_witness :
  extract_content
    (extract_content (unlines ["## 2024-01-01"; "Went hiking"; "---"; "x"]))
  = extract_content (unlines ["## 2024-01-01"; "Went hiking"; "---"; "x"])
  /\ List.length
       (extract_content
          (extract_content
             (unlines ["## 2024-01-01"; "## 2024-01-02"; "text"])))
     < List.length
         (extract_content (unlines ["## 2024-01-01"; "## 2024-01-02"; "text"])).
Proof.
  split.
  - apply (proj2 (proj1 (proj2 (extract_content_idempotent
      (unlines ["## 2024-01-01"; "Went hiking"; "---"; "x"]))))).
    reflexivity.
  - apply (proj2 (proj2 (extract_content_idempotent
      (unlines ["## 2024-01-01"; "## 2024-01-02"; "text"])))).
    reflexivity.
Defined.

End ExtractFacts.
Import ExtractFacts.

(** ** Arrays, sets and sorting *)

Module JsArrayFacts.

Lemma str_compare_antisym a : forall b,
  str_compare b a = CompOpp (str_compare a b).
Proof.
  induction a as [|x a IH]; intros [|y b]; simpl; try reflexivity.
  rewrite (Ascii.compare_antisym y x).
  destruct (Ascii.compare x y); simpl; auto.
Qed.

Lemma str_leb_total a b : str_leb a b = false -> str_leb b a = true.
Proof.
  unfold str_leb; rewrite (str_compare_antisym a b).
  destruct (str_compare a b); simpl; congruence.
Qed.

Lemma scalar_eqb_eq a b : scalar_eqb a b = true <-> a = b.
Proof.
  destruct a, b; simpl; split; intros H;
    try discriminate; try reflexivity.
  - apply Bool.eqb_prop in H; congruence.
  - inversion H; apply Bool.eqb_reflx.
  - apply Z.eqb_eq in H; subst; f_equal.
    apply (UIP_dec Bool.bool_dec).
  - inversion H; apply Z.eqb_refl.
  - apply str_eqb_eq in H; congruence.
  - inversion H; apply str_eqb_refl.
Qed.

Section Generic.
Context {A : Type}.
Variable eqb : A -> A -> bool.
Hypothesis eqb_eq : forall a b, eqb a b = true <-> a = b.

Lemma includes_In arr x : includes eqb arr x = true <-> In x arr.
Proof.
  unfold includes; rewrite existsb_exists; split.
  - intros (y & Hy & E); apply eqb_eq in E; subst; assumption.
  - intros H; exists x; split; [assumption|]; apply eqb_eq; reflexivity.
Qed.

Lemma set_add_NoDup set x : NoDup set -> NoDup (set_add eqb set x).
Proof.
  intros H; unfold set_add.
  destruct (includes eqb set x) eqn:E; [assumption|].
  apply NoDup_app; [assumption | repeat constructor; intros [] |].
  intros a Ha [<- | []].
  apply includes_In in Ha; congruence.
Qed.

Variable leb : A -> A -> bool.
Hypothesis leb_total : forall a b, leb a b = false -> leb b a = true.

Lemma insert_perm x l : Permutation (insert leb x l) (x :: l).
Proof.
  induction l as [|y l IH]; simpl; [reflexivity|].
  destruct (leb x y); [reflexivity|].
  rewrite IH; apply perm_swap.
Qed.

Lemma sort_perm l : Permutation (sort leb l) l.
Proof.
  induction l as [|x l IH]; simpl; [reflexivity|].
  rewrite insert_perm, IH; reflexivity.
Qed.

Lemma insert_sorted x l :
  Sorted (fun a b => leb a b = true) l ->
  Sorted (fun a b => leb a b = true) (insert leb x l).
Proof.
  induction 1 as [|y l Hs IH Hd]; simpl; [repeat constructor|].
  destruct (leb x y) eqn:E.
  - repeat constructor; assumption.
  - constructor; [exact IH|].
    destruct l as [|z l]; simpl.
    + constructor; apply leb_total; assumption.
    + destruct (leb x z); constructor.
      * apply leb_total; assumption.
      * inversion Hd; assumption.
Qed.

Lemma sort_sorted l : Sorted (fun a b => leb a b = true) (sort leb l).
Proof.
  induction l as [|x l IH]; simpl; [constructor|].
  apply insert_sorted; assumption.
Qed.

Lemma sort_NoDup l : NoDup l -> NoDup (sort leb l).
Proof.
  intros H; apply (Permutation_NoDup (Permutation_sym (sort_perm l)) H).
Qed.

End Generic.

Lemma filter_length_perm {A} (f : A -> bool) l l' :
  Permutation l l' -> List.length (filter f l) = List.length (filter f l').
Proof.
  induction 1 as [|x l l' _ IH|x y l|l l' l'' _ IH1 _ IH2]; simpl.
  - reflexivity.
  - destruct (f x); simpl; congruence.
  - destruct (f x), (f y); reflexivity.
  - congruence.
Qed.

End JsArrayFacts.
Import JsArrayFacts.

(** ** The aggregation engine *)

Module EngineFacts.

Lemma process_file_eq W o st file :
  process_file W o st file
  = {| aggregatedContent := aggregatedContent st ++ contribution W o file;
       processedCount := S (processedCount st);
       includedCount :=
         includedCount st + (if passes W o file then 1 else 0) |}.
Proof.
  unfold process_file, contribution, passes.
  destruct (read_note W file) as [| |data content];
    rewrite ?app_nil_r, ?Nat.add_0_r; try reflexivity.
  destruct (hasRequiredTag (requiredTags o) data
            && hasAllowedPrivacy (allowedPrivacy o) data); cbn [andb];
    rewrite ?app_nil_r, ?Nat.add_0_r; try reflexivity.
  destruct (nonempty (extract_content content));
    rewrite ?app_nil_r, Nat.add_1_r; reflexivity.
Qed.

Lemma fold_process_file W o files : forall st,
  fold_left (process_file W o) files st
  = {| aggregatedContent :=
         aggregatedContent st ++ flat_map (contribution W o) files;
       processedCount := processedCount st + List.length files;
       includedCount :=
         includedCount st + List.length (filter (passes W o) files) |}.
Proof.
  induction files as [|f files IH]; intros st; cbn [fold_left].
  - destruct st; simpl; rewrite app_nil_r, !Nat.add_0_r; reflexivity.
  - rewrite IH, process_file_eq; cbn [aggregatedContent processedCount
      includedCount flat_map filter List.length].
    rewrite <- app_assoc; f_equal; [lia|].
    destruct (passes W o f); simpl; lia.
Qed.

Lemma process_files_eq W o files :
  process_files W o files
  = {| aggregatedContent := flat_map (contribution W o) (sort str_leb files);
       processedCount := List.length files;
       includedCount := List.length (filter (passes W o) files) |}.
Proof.
  unfold process_files; rewrite fold_process_file; simpl; f_equal.
  - apply Permutation_length, sort_perm.
  - apply filter_length_perm, sort_perm.
Qed.

(** What a successful call went through. *)
Lemma aggregateNotes_ok P W today o W' s :
  aggregateNotes P W today o = (W', Ok s) ->
  exists found,
    valid_options o = true
    /\ exists_path W (aggregatedFilename P today o) = false
    /\ glob_sync W (path_join P (notesDir o) (str "*.md")) = Some found
    /\ s = {| outputFile := aggregatedFilename P today o;
              filesProcessed :=
                processedCount (process_files W o (date_filter P o found));
              notesIncluded :=
                includedCount (process_files W o (date_filter P o found)) |}
    /\ W' = write_file (ensure_dir W (aggregatesDir o))
              (aggregatedFilename P today o)
              (newFrontmatter P today o)
              (join separator
                 (aggregatedContent
                    (process_files W o (date_filter P o found)))).
Proof.
  unfold aggregateNotes, valid_options.
  destruct (nonempty (notesDir o)); cbn [negb orb andb]; [|discriminate].
  destruct (nonempty (aggregatesDir o)); cbn [negb andb]; [|discriminate].
  destruct (invalid_required (requiredTags o)); cbn [negb]; [discriminate|].
  destruct (exists_path W (aggregatedFilename P today o)); [discriminate|].
  destruct (glob_sync W _) as [found|]; [|discriminate].
  destruct (List.length (date_filter P o found) =? 0)%nat; [discriminate|].
  destruct (List.length (aggregatedContent _) =? 0)%nat; [discriminate|].
  destruct (can_write W _); [|discriminate].
  intros H; inversion H; subst; exists found; auto.
Qed.

(** What a call with valid options that meets no existing output file and
    no [glob] failure comes to. *)
Lemma aggregateNotes_found P W today o found :
  valid_options o = true ->
  exists_path W (aggregatedFilename P today o) = false ->
  glob_sync W (path_join P (notesDir o) (str "*.md")) = Some found ->
  aggregateNotes P W today o
  = let files := date_filter P o found in
    if (List.length files =? 0)%nat
    then (W, Err (if has_date_bound o then NoFilesInRange else EmptySource))
    else
      let st := process_files W o files in
      if (List.length (aggregatedContent st) =? 0)%nat
      then (W, Err NoMatchingNotes)
      else if can_write W (aggregatedFilename P today o)
      then (write_file (ensure_dir W (aggregatesDir o))
              (aggregatedFilename P today o)
              (newFrontmatter P today o)
              (join separator (aggregatedContent st)),
            Ok {| outputFile := aggregatedFilename P today o;
                  filesProcessed := processedCount st;
                  notesIncluded := includedCount st |})
      else (ensure_dir W (aggregatesDir o), Err WriteFailure).
Proof.
  unfold aggregateNotes, valid_options; intros Hv He Hg.
  apply andb_true_iff in Hv as [Hv Hr]; apply andb_true_iff in Hv as [Hn Ha].
  apply negb_true_iff in Hr.
  rewrite Hn, Ha, Hr, He, Hg; reflexivity.
Qed.

Lemma shape_classify r1 r2 : shape r1 = shape r2 -> classify r1 = classify r2.
Proof.
  destruct r1 as [[|a [|b l]]|], r2 as [[|c [|d l']]|]; simpl;
    intros H; try discriminate; try reflexivity.
  inversion H; reflexivity.
Qed.

End EngineFacts.
Import EngineFacts.

(** ** Counting, failure modes and the output path *)

Module EngineClaims.

(** C1 as written fails: [2024-01-03.md] passes both tests, its content is
    empty after extraction, and it is counted in [notesIncluded]: the call
    reports 2 where one file has content. *)
Lemma blank_note_is_counted :
  snd (aggregateNotes posix (vault [jan01; jan03]) (str "2024-03-01")
         (request None [] [] []))
  = Ok {| outputFile := str "output/all-2024-03-01.md";
          filesProcessed := 2;
          notesIncluded := 2 |}
  /\ passes (vault [jan01; jan03]) (request None [] [] []) (fst jan03) = true
  /\ has_content (vault [jan01; jan03]) (fst jan03) = false
  /\ List.length (filter (has_content (vault [jan01; jan03]))
                    [fst jan01; fst jan03]) = 1.
Proof. repeat split; reflexivity. Qed.

(** C1, amended: [notesIncluded] of a successful call is the number of
    files, among those the date filter keeps, that are read and parsed and
    pass the tag and the privacy test, whether or not their extracted
    content is empty; with [requiredTags] null, [allowedPrivacy] empty and
    no date bound it is the number of readable Markdown files of
    [notesDir]. *)
Theorem notesIncluded_counts_passing_notes P W today o W' s :
  aggregateNotes P W today o = (W', Ok s) ->
  exists found,
    glob_sync W (path_join P (notesDir o) (str "*.md")) = Some found
    /\ notesIncluded s
       = List.length (filter (passes W o) (date_filter P o found))
    /\ (requiredTags o = None -> allowedPrivacy o = [] ->
        has_date_bound o = false ->
        notesIncluded s = List.length (filter (readable W) found)).
Proof.
  intros H; apply aggregateNotes_ok in H as (found & _ & _ & Hg & -> & _).
  exists found; split; [exact Hg|].
  rewrite process_files_eq; cbn [notesIncluded includedCount].
  split; [reflexivity|].
  intros Hr Ha Hd; unfold date_filter; rewrite Hd.
  f_equal; apply filter_ext; intros f.
  unfold passes, readable; rewrite Hr, Ha.
  destruct (read_note W f); reflexivity.
Qed.

Lemma notesIncluded_counts_passing_notes_witness :
  exists found,
    glob_sync (vault [jan01; jan02; jan03])
      (path_join posix (notesDir (request None [] [] [])) (str "*.md"))
    = Some found
    /\ 3 = List.length
             (filter (passes (vault [jan01; jan02; jan03])
                        (request None [] [] []))
                (date_filter posix (request None [] [] []) found))
    /\ (requiredTags (request None [] [] []) = None ->
        allowedPrivacy (request None [] [] []) = [] ->
        has_date_bound (request None [] [] []) = false ->
        3 = List.length
              (filter (readable (vault [jan01; jan02; jan03])) found)).
Proof.
  exact (notesIncluded_counts_passing_notes posix
           (vault [jan01; jan02; jan03]) (str "2024-03-01")
           (request None [] [] []) _
           {| outputFile := str "output/all-2024-03-01.md";
              filesProcessed := 3; notesIncluded := 3 |}
           eq_refl).
Defined.

(** C2 as written fails: an empty source directory with a start date set
    fails with the date-range error, not with [EmptySource]. *)
Lemma empty_source_with_date_bound :
  glob_sync (vault []) (str "vault/daily/*.md") = Some []
  /\ aggregateNotes posix (vault []) (str "2024-03-01")
       (request None [] (str "2024-01-01") [])
     = (vault [], Err NoFilesInRange)
  /\ snd (aggregateNotes posix (vault []) (str "2024-03-01")
            (request None [] (str "2024-01-01") []))
     <> Err EmptySource.
Proof.
  split; [reflexivity|]; split; [reflexivity|].
  vm_compute; discriminate.
Qed.

(** C2, amended: the file list is tested for emptiness once, after the
    date filter.  When nothing is left the call fails with [NoFilesInRange]
    if a start or an end date is set, also when the directory itself holds
    no Markdown file, and with [EmptySource] if none is set; so
    [EmptySource] means an empty directory and no date bound, and
    [NoFilesInRange] means a date bound that no file meets. *)
Theorem no_files_error P W today o found :
  valid_options o = true ->
  exists_path W (aggregatedFilename P today o) = false ->
  glob_sync W (path_join P (notesDir o) (str "*.md")) = Some found ->
  (date_filter P o found = [] ->
   aggregateNotes P W today o
   = (W, Err (if has_date_bound o then NoFilesInRange else EmptySource)))
  /\ (snd (aggregateNotes P W today o) = Err EmptySource
      <-> found = [] /\ has_date_bound o = false)
  /\ (snd (aggregateNotes P W today o) = Err NoFilesInRange
      <-> filter (in_date_range P o) found = [] /\ has_date_bound o = true).
Proof.
  intros Hv He Hg; rewrite (aggregateNotes_found P W today o found Hv He Hg).
  cbv zeta; unfold date_filter.
  assert (Hlater : forall files : list jsstring,
    let r := snd (if (List.length (aggregatedContent (process_files W o files))
                      =? 0)%nat
                  then (W, Err NoMatchingNotes)
                  else if can_write W (aggregatedFilename P today o)
                  then (write_file (ensure_dir W (aggregatesDir o))
                          (aggregatedFilename P today o)
                          (newFrontmatter P today o)
                          (join separator
                             (aggregatedContent (process_files W o files))),
                        Ok {| outputFile := aggregatedFilename P today o;
                              filesProcessed :=
                                processedCount (process_files W o files);
                              notesIncluded :=
                                includedCount (process_files W o files) |})
                  else (ensure_dir W (aggregatesDir o), Err WriteFailure)) in
    r <> Err EmptySource /\ r <> Err NoFilesInRange).
  { intros files; cbv zeta.
    destruct (List.length _ =? 0)%nat; [|destruct (can_write W _)];
      cbn [snd]; split; discriminate. }
  destruct (has_date_bound o).
  - destruct (filter (in_date_range P o) found) as [|f fs] eqn:Ef.
    + cbn [List.length Nat.eqb snd]. split; [reflexivity|]. split; split.
      * discriminate.
      * intros [_ H]; discriminate.
      * auto.
      * reflexivity.
    + cbn [List.length Nat.eqb]. destruct (Hlater (f :: fs)) as [H1 H2].
      split; [discriminate|]. split; split.
      * intros H; contradiction.
      * intros [_ H]; discriminate.
      * intros H; contradiction.
      * intros [H _]; discriminate.
  - destruct found as [|f fs].
    + cbn [List.length Nat.eqb snd]. split; [reflexivity|]. split; split.
      * auto.
      * reflexivity.
      * discriminate.
      * intros [_ H]; discriminate.
    + cbn [List.length Nat.eqb]. destruct (Hlater (f :: fs)) as [H1 H2].
      split; [discriminate|]. split; split.
      * intros H; contradiction.
      * intros [H _]; discriminate.
      * intros H; contradiction.
      * intros [_ H]; discriminate.
Qed.

Lemma no_files_error_witness :
  (date_filter posix (request None [] [] (str "2023-12-31"))
     (map fst [jan01; jan02]) = [] ->
   aggregateNotes posix (vault [jan01; jan02]) (str "2024-03-01")
     (request None [] [] (str "2023-12-31"))
   = (vault [jan01; jan02], Err NoFilesInRange))
  /\ (snd (aggregateNotes posix (vault [jan01; jan02]) (str "2024-03-01")
             (request None [] [] (str "2023-12-31"))) = Err EmptySource
      <-> map fst [jan01; jan02] = []
          /\ has_date_bound (request None [] [] (str "2023-12-31")) = false)
  /\ (snd (aggregateNotes posix (vault [jan01; jan02]) (str "2024-03-01")
             (request None [] [] (str "2023-12-31"))) = Err NoFilesInRange
      <-> filter (in_date_range posix (request None [] [] (str "2023-12-31")))
            (map fst [jan01; jan02]) = []
          /\ has_date_bound (request None [] [] (str "2023-12-31")) = true).
Proof.
  exact (no_files_error posix (vault [jan01; jan02]) (str "2024-03-01")
           (request None [] [] (str "2023-12-31")) (map fst [jan01; jan02])
           eq_refl eq_refl eq_refl).
Defined.

(** C4: on one day and for one [aggregatesDir], two filters of the same
    shape (both null, both the same single tag, both with several tags)
    compute the same output path; a call that finds a file at its output
    path fails with [OutputCollision] and leaves the world as it was; and
    after a successful call a second one of the same shape on the same day
    fails so. *)
Theorem same_shape_same_path_and_collision P W today :
  (forall o1 o2,
     aggregatesDir o1 = aggregatesDir o2 ->
     shape (requiredTags o1) = shape (requiredTags o2) ->
     aggregatedFilename P today o1 = aggregatedFilename P today o2)
  /\ (forall o,
        valid_options o = true ->
        exists_path W (aggregatedFilename P today o) = true ->
        aggregateNotes P W today o
        = (W, Err (OutputCollision (aggregatedFilename P today o))))
  /\ (forall o1 o2 W1 s,
        aggregateNotes P W today o1 = (W1, Ok s) ->
        valid_options o2 = true ->
        aggregatesDir o1 = aggregatesDir o2 ->
        shape (requiredTags o1) = shape (requiredTags o2) ->
        aggregateNotes P W1 today o2
        = (W1, Err (OutputCollision (outputFile s)))).
Proof.
  assert (Hpath : forall o1 o2,
     aggregatesDir o1 = aggregatesDir o2 ->
     shape (requiredTags o1) = shape (requiredTags o2) ->
     aggregatedFilename P today o1 = aggregatedFilename P today o2).
  { intros o1 o2 Hd Hs; unfold aggregatedFilename, safeTagForFilename.
    rewrite Hd, (shape_classify _ _ Hs); reflexivity. }
  assert (Hcol : forall W0 o,
     valid_options o = true ->
     exists_path W0 (aggregatedFilename P today o) = true ->
     aggregateNotes P W0 today o
     = (W0, Err (OutputCollision (aggregatedFilename P today o)))).
  { intros W0 o Hv He; unfold aggregateNotes, valid_options in *.
    apply andb_true_iff in Hv as [Hv Hr].
    apply andb_true_iff in Hv as [Hn Ha].
    apply negb_true_iff in Hr.
    rewrite Hn, Ha, Hr, He; reflexivity. }
  split; [exact Hpath|]; split; [apply Hcol|].
  intros o1 o2 W1 s H Hv Hd Hs.
  apply aggregateNotes_ok in H as (found & _ & _ & _ & -> & ->).
  cbn [outputFile]; rewrite (Hpath o1 o2 Hd Hs).
  apply Hcol; [exact Hv|].
  cbn [write_file exists_path]; rewrite str_eqb_refl; reflexivity.
Qed.

Lemma same_shape_same_path_and_collision_witness :
  aggregateNotes posix
    (fst (aggregateNotes posix (vault [jan01; jan02]) (str "2024-03-01")
            (request (Some [str "trip"; str "work"]) [] [] [])))
    (str "2024-03-01")
    (request (Some [str "work"; str "play"; str "rest"]) [] [] [])
  = (fst (aggregateNotes posix (vault [jan01; jan02]) (str "2024-03-01")
            (request (Some [str "trip"; str "work"]) [] [] [])),
     Err (OutputCollision (str "output/multi-tag-2024-03-01.md"))).
Proof.
  exact (proj2 (proj2 (same_shape_same_path_and_collision posix
           (vault [jan01; jan02]) (str "2024-03-01")))
           (request (Some [str "trip"; str "work"]) [] [] [])
           (request (Some [str "work"; str "play"; str "rest"]) [] [] [])
           _
           {| outputFile := str "output/multi-tag-2024-03-01.md";
              filesProcessed := 2; notesIncluded := 2 |}
           eq_refl eq_refl eq_refl eq_refl).
Defined.

End EngineClaims.

(** ** The tag test and the privacy test *)

Module FilterClaims.

Lemma hasRequiredTag_iff req data :
  hasRequiredTag (Some req) data = true
  <-> noteTags data <> []
      /\ exists t, In t (noteTags data) /\ In t req.
Proof.
  unfold hasRequiredTag; rewrite andb_true_iff, existsb_exists; split.
  - intros [Hlen (t & Ht & Hin)].
    apply (includes_In str_eqb str_eqb_eq) in Hin.
    split; [|exists t; auto].
    intros E; rewrite E in Hlen; discriminate.
  - intros [Hne (t & Ht & Hreq)]; split.
    + destruct (noteTags data); [congruence|reflexivity].
    + exists t; split; [assumption|].
      apply (includes_In str_eqb str_eqb_eq); assumption.
Qed.

Lemma passes_has_tag W o file req :
  requiredTags o = Some req ->
  passes W o file = true ->
  exists data body,
    read_note W file = Parsed data body
    /\ exists t, In t (noteTags data) /\ In t req.
Proof.
  unfold passes; intros Hr H.
  destruct (read_note W file) as [| |data body]; try discriminate.
  rewrite Hr in H; apply andb_true_iff in H as [H _].
  apply hasRequiredTag_iff in H as [_ H].
  exists data, body; auto.
Qed.

(** C5: under a filter with a tag set, a note passes the tag test exactly
    when its cleaned tag list is not empty and one of its tags is in the
    set; a note without tags fails it; every content the loop collects,
    and every note it counts, comes from a note with a tag in the set. *)
Theorem tag_test_matches_any (req : list jsstring) :
  (forall data,
     hasRequiredTag (Some req) data = true
     <-> noteTags data <> []
         /\ exists t, In t (noteTags data) /\ In t req)
  /\ (forall data,
        noteTags data = [] -> hasRequiredTag (Some req) data = false)
  /\ (forall W o files c,
        requiredTags o = Some req ->
        In c (aggregatedContent (process_files W o files)) ->
        exists file data body,
          In file files
          /\ read_note W file = Parsed data body
          /\ c = extract_content body
          /\ exists t, In t (noteTags data) /\ In t req)
  /\ (forall W o files,
        requiredTags o = Some req ->
        includedCount (process_files W o files)
        = List.length (filter (passes W o) files)
        /\ forall file, passes W o file = true ->
           exists data body,
             read_note W file = Parsed data body
             /\ exists t, In t (noteTags data) /\ In t req).
Proof.
  split; [intros data; apply hasRequiredTag_iff|].
  split.
  { intros data E; unfold hasRequiredTag; rewrite E; reflexivity. }
  split.
  - intros W o files c Hr Hc.
    rewrite process_files_eq in Hc; cbn [aggregatedContent] in Hc.
    apply in_flat_map in Hc as (file & Hf & Hc).
    apply (Permutation_in _ (sort_perm str_leb files)) in Hf.
    unfold contribution in Hc.
    destruct (read_note W file) as [| |data body] eqn:Er; try contradiction.
    destruct (passes W o file) eqn:Hp; cbn [andb] in Hc; [|contradiction].
    destruct (nonempty (extract_content body)); [|contradiction].
    destruct Hc as [<- | []].
    destruct (passes_has_tag W o file req Hr Hp) as (d & b & Er' & Ht).
    rewrite Er in Er'; inversion Er'; subst.
    exists file, d, b; auto.
  - intros W o files Hr; rewrite process_files_eq; split; [reflexivity|].
    intros file Hp; apply (passes_has_tag W o file req Hr Hp).
Qed.

Lemma tag_test_matches_any_witness :
  hasRequiredTag (Some [str "trip"])
    {| tags := Array [SStr (str "  ")]; privacy := None |} = false.
Proof.
  apply (proj1 (proj2 (tag_test_matches_any [str "trip"]))).
  reflexivity.
Defined.

(** C6 as written fails: the empty string is a privacy value and is in
    the allow-list, and the note fails the privacy test. *)
Lemma empty_privacy_string_fails :
  hasAllowedPrivacy [SStr []] {| tags := Undefined; privacy := Some (SStr []) |}
  = false
  /\ exists p,
       privacy {| tags := Undefined; privacy := Some (SStr []) |} = Some p
       /\ In p [SStr []].
Proof.
  split; [reflexivity|].
  exists (SStr []); split; [reflexivity | left; reflexivity].
Qed.

(** C6, amended: the privacy test passes exactly when [allowedPrivacy] is
    empty, or the note has a truthy privacy value (for a string: a
    non-empty one) that is in [allowedPrivacy]; a note whose privacy is the
    empty string fails under every non-empty [allowedPrivacy]. *)
Theorem privacy_test_truthy (allowed : list scalar) (data : frontmatter) :
  (hasAllowedPrivacy allowed data = true
   <-> allowed = []
       \/ exists p, privacy data = Some p /\ truthy p = true /\ In p allowed)
  /\ (forall s, privacy data = Some (SStr s) -> s <> [] ->
      (hasAllowedPrivacy allowed data = true
       <-> allowed = [] \/ In (SStr s) allowed))
  /\ (privacy data = Some (SStr []) -> allowed <> [] ->
      hasAllowedPrivacy allowed data = false).
Proof.
  assert (Hlen : (List.length allowed =? 0)%nat = true <-> allowed = []).
  { destruct allowed; simpl; split; congruence. }
  assert (Hmain : hasAllowedPrivacy allowed data = true
   <-> allowed = []
       \/ exists p, privacy data = Some p /\ truthy p = true /\ In p allowed).
  { unfold hasAllowedPrivacy; rewrite orb_true_iff, Hlen.
    split; (intros [H | H]; [left; exact H | right]).
    - destruct (privacy data) as [p|]; [|discriminate].
      apply andb_true_iff in H as [Ht Hi].
      apply (includes_In scalar_eqb scalar_eqb_eq) in Hi.
      exists p; auto.
    - destruct H as (p & -> & Ht & Hi).
      rewrite Ht; apply (includes_In scalar_eqb scalar_eqb_eq); assumption. }
  split; [exact Hmain|]; split.
  - intros s Hp Hs; rewrite Hmain; split; (intros [H | H]; [left; exact H | right]).
    + destruct H as (p & Hp' & _ & Hi); congruence.
    + exists (SStr s); repeat split; [assumption| |assumption].
      destruct s; [congruence|reflexivity].
  - intros Hp Hne; unfold hasAllowedPrivacy; rewrite Hp.
    destruct allowed; [congruence|reflexivity].
Qed.

Lemma privacy_test_truthy_witness :
  hasAllowedPrivacy [SStr (str "public"); SStr []]
    {| tags := Undefined; privacy := Some (SStr []) |} = false.
Proof.
  apply (proj2 (proj2 (privacy_test_truthy [SStr (str "public"); SStr []]
    {| tags := Undefined; privacy := Some (SStr []) |}))).
  - reflexivity.
  - discriminate.
Defined.

End FilterClaims.
Import FilterClaims.

(** ** The option scanner *)

Module ScannerClaims.

Lemma str_compare_eq a : forall b, str_compare a b = Eq -> a = b.
Proof.
  induction a as [|x a IH]; intros [|y b]; simpl; try congruence.
  destruct (Ascii.compare x y) eqn:E; try discriminate.
  apply Ascii.compare_eq_iff in E; intros H; rewrite (IH _ H), E; reflexivity.
Qed.

Lemma scalar_leb_total a b : scalar_leb a b = false -> scalar_leb b a = true.
Proof. apply str_leb_total. Qed.

(** Without duplicates, ascending is strictly ascending. *)
Lemma sorted_strict l :
  NoDup l ->
  Sorted (fun a b => str_leb a b = true) l ->
  Sorted (fun a b => str_compare a b = Lt) l.
Proof.
  intros Hn Hs; induction Hs as [|a l Hs IH Hd]; [constructor|].
  inversion Hn as [|? ? Hnotin Hn']; subst.
  constructor; [apply IH; assumption|].
  destruct Hd as [|b l Hab]; constructor.
  unfold str_leb in Hab.
  destruct (str_compare a b) eqn:E; [|reflexivity|discriminate].
  apply str_compare_eq in E; subst; elim Hnotin; left; reflexivity.
Qed.

Lemma fold_tags_NoDup items : forall set,
  NoDup set ->
  NoDup (fold_left (fun set tag =>
                      match tag with
                      | SStr s => if truthy tag
                                  then set_add str_eqb set (trim s) else set
                      | _ => set
                      end) items set).
Proof.
  induction items as [|v items IH]; intros set H; [exact H|].
  cbn [fold_left]; apply IH.
  destruct v as [| | |s]; try exact H.
  destruct (truthy (SStr s)); [|exact H].
  apply (set_add_NoDup str_eqb str_eqb_eq); exact H.
Qed.

Lemma collect_NoDup data acc :
  NoDup (fst acc) /\ NoDup (snd acc) ->
  NoDup (fst (collect data acc)) /\ NoDup (snd (collect data acc)).
Proof.
  intros [Ht Hp]; unfold collect; cbn [fst snd]; split.
  - destruct (tags data); try exact Ht.
    apply fold_tags_NoDup; exact Ht.
  - destruct (privacy data) as [p|]; [|exact Hp].
    destruct (truthy p); [|exact Hp].
    apply (set_add_NoDup scalar_eqb scalar_eqb_eq); exact Hp.
Qed.

Lemma scan_NoDup W files : forall acc,
  NoDup (fst acc) /\ NoDup (snd acc) ->
  NoDup (fst (fold_left (scan_file W) files acc))
  /\ NoDup (snd (fold_left (scan_file W) files acc)).
Proof.
  induction files as [|f files IH]; intros acc H; [exact H|].
  cbn [fold_left]; apply IH; unfold scan_file.
  destruct (read_note W f); try exact H.
  apply collect_NoDup; exact H.
Qed.

(** The scanner keeps no tag entry that is not a string. *)
Lemma collect_skips_non_strings data items acc :
  tags data = Array items ->
  (forall v, In v items -> is_string v = false) ->
  fst (collect data acc) = fst acc.
Proof.
  intros Ht Hall; unfold collect; cbn [fst]; rewrite Ht; clear Ht.
  generalize (fst acc) as set.
  induction items as [|v items IH]; intros set; [reflexivity|].
  cbn [fold_left].
  assert (Hv : is_string v = false) by (apply Hall; left; reflexivity).
  destruct v; try discriminate; apply IH; intros w Hw; apply Hall;
    right; exact Hw.
Qed.

(** C9: on a directory that does not exist the scanner returns two empty
    collections and no error; whatever it returns, the tags have no
    duplicates and ascend strictly in code-unit order, and the privacy
    levels have no duplicates and ascend in the order of their string
    forms, which is the order of [sort()]. *)
Theorem scan_is_sorted_and_unique P W dir :
  (exists_path W dir = false ->
   getAvailableOptions P W dir
   = Ok {| av_tags := []; av_privacyLevels := [] |})
  /\ (forall r,
        getAvailableOptions P W dir = Ok r ->
        NoDup (av_tags r)
        /\ Sorted (fun a b => str_compare a b = Lt) (av_tags r)
        /\ NoDup (av_privacyLevels r)
        /\ Sorted (fun a b => scalar_leb a b = true) (av_privacyLevels r)).
Proof.
  unfold getAvailableOptions; split.
  - intros ->; reflexivity.
  - intros r.
    destruct (exists_path W dir); cbn [negb].
    + destruct (glob_sync W _) as [files|]; [|discriminate].
      intros H; inversion H; subst; clear H; cbn [av_tags av_privacyLevels].
      destruct (scan_NoDup W files ([], [])) as [Ht Hp];
        [split; constructor|].
      assert (Hts : NoDup (sort str_leb
                             (fst (fold_left (scan_file W) files ([], []))))).
      { apply sort_NoDup; exact Ht. }
      split; [exact Hts|]; split.
      * apply sorted_strict; [exact Hts|].
        apply sort_sorted, str_leb_total.
      * split; [apply sort_NoDup; exact Hp|].
        apply sort_sorted, scalar_leb_total.
    + intros H; inversion H; subst; cbn [av_tags av_privacyLevels].
      repeat split; constructor.
Qed.

Lemma scan_is_sorted_and_unique_witness :
  getAvailableOptions posix (vault [jan01; jan02]) (str "vault/weekly")
  = Ok {| av_tags := []; av_privacyLevels := [] |}.
Proof.
  apply (proj1 (scan_is_sorted_and_unique posix (vault [jan01; jan02])
                  (str "vault/weekly"))).
  reflexivity.
Defined.

Lemma fold_tags_strings_only items : forall set,
  fold_left (fun set tag =>
               match tag with
               | SStr s => if truthy tag
                           then set_add str_eqb set (trim s) else set
               | _ => set
               end) items set
  = fold_left (fun set tag =>
                 match tag with
                 | SStr s => if truthy tag
                             then set_add str_eqb set (trim s) else set
                 | _ => set
                 end) (filter is_string items) set.
Proof.
  induction items as [|v items IH]; intros set; [reflexivity|].
  destruct v; cbn [filter is_string fold_left]; apply IH.
Qed.

(** C10: the engine turns every tag entry into a string before it trims
    it, so a note passes the tag test on the string form of an entry that
    is not a string.  The scanner keeps strings only: what it collects
    from a tags array, mixed or not, is what it collects from the string
    entries of that array, and nothing when there is none.  For the vault
    that holds one note tagged with the number 2024, the scanner reports no
    tag and the engine includes the note under the filter ["2024"]. *)
Theorem engine_matches_tags_the_scanner_drops :
  (forall data items v req,
     tags data = Array items ->
     In v items ->
     nonempty (trim (to_String v)) = true ->
     In (trim (to_String v)) req ->
     hasRequiredTag (Some req) data = true)
  /\ (forall data items acc,
        tags data = Array items ->
        fst (collect data acc)
        = fst (collect {| tags := Array (filter is_string items);
                          privacy := privacy data |} acc))
  /\ (forall data items acc,
        tags data = Array items ->
        (forall v, In v items -> is_string v = false) ->
        fst (collect data acc) = fst acc)
  /\ to_String (SNum 2024 eq_refl) = str "2024"
  /\ getAvailableOptions posix (vault [jan04]) (str "vault/daily")
     = Ok {| av_tags := []; av_privacyLevels := [] |}
  /\ snd (aggregateNotes posix (vault [jan04]) (str "2024-03-01")
            (request (Some [str "2024"]) [] [] []))
     = Ok {| outputFile := str "output/2024-2024-03-01.md";
             filesProcessed := 1;
             notesIncluded := 1 |}.
Proof.
  split; [|split; [|split; [exact collect_skips_non_strings|repeat split]]].
  - intros data items v req Ht Hv Hne Hreq.
    assert (Hin : In (trim (to_String v)) (noteTags data)).
    { unfold noteTags; rewrite Ht; apply filter_In; split; [|exact Hne].
      apply (in_map (fun t => trim (to_String t))); exact Hv. }
    apply hasRequiredTag_iff; split.
    + intros E; rewrite E in Hin; exact Hin.
    + exists (trim (to_String v)); auto.
  - intros data items acc Ht; unfold collect; cbn [fst tags]; rewrite Ht.
    apply fold_tags_strings_only.
Qed.

Lemma engine_matches_tags_the_scanner_drops_witness :
  hasRequiredTag (Some [str "2024"])
    {| tags := Array [SStr (str "trip"); SNum 2024 eq_refl];
       privacy := None |} = true
  /\ fst (collect {| tags := Array [SStr (str "trip"); SNum 2024 eq_refl];
                     privacy := None |} ([], []))
     = fst (collect {| tags := Array (filter is_string
                                        [SStr (str "trip"); SNum 2024 eq_refl]);
                       privacy := privacy
                         {| tags := Array [SStr (str "trip");
                                           SNum 2024 eq_refl];
                            privacy := None |} |} ([], [])).
Proof.
  split.
  - apply (proj1 engine_matches_tags_the_scanner_drops
             {| tags := Array [SStr (str "trip"); SNum 2024 eq_refl];
                privacy := None |}
             [SStr (str "trip"); SNum 2024 eq_refl] (SNum 2024 eq_refl)
             [str "2024"]).
    + reflexivity.
    + right; left; reflexivity.
    + reflexivity.
    + left; reflexivity.
  - apply (proj1 (proj2 engine_matches_tags_the_scanner_drops)
             {| tags := Array [SStr (str "trip"); SNum 2024 eq_refl];
                privacy := None |}
             [SStr (str "trip"); SNum 2024 eq_refl] ([], [])).
    reflexivity.
Defined.

End ScannerClaims.

(** ** The order of strings *)

Module OrderFacts.

Lemma str_compare_refl a : str_compare a a = Eq.
Proof.
  induction a as [|x a IH]; simpl; [reflexivity|].
  unfold Ascii.compare; rewrite N.compare_refl; exact IH.
Qed.

Lemma str_compare_Eq a : forall b, str_compare a b = Eq -> a = b.
Proof.
  induction a as [|x a IH]; intros [|y b]; simpl; try congruence.
  destruct (Ascii.compare x y) eqn:E; try discriminate.
  apply Ascii.compare_eq_iff in E; intros H; rewrite (IH _ H), E; reflexivity.
Qed.

Lemma str_leb_refl a : str_leb a a = true.
Proof. unfold str_leb; rewrite str_compare_refl; reflexivity. Qed.

Lemma str_compare_Lt_trans a : forall b c,
  str_compare a b = Lt -> str_compare b c = Lt -> str_compare a c = Lt.
Proof.
  induction a as [|x a IH]; intros [|y b] [|z c]; simpl; try congruence.
  unfold Ascii.compare.
  destruct (N.compare_spec (N_of_ascii x) (N_of_ascii y)) as [E1|L1|G1];
    try discriminate;
    destruct (N.compare_spec (N_of_ascii y) (N_of_ascii z)) as [E2|L2|G2];
    try discriminate; intros H1 H2.
  - rewrite E1, E2, N.compare_refl; eapply IH; eassumption.
  - rewrite E1; apply N.compare_lt_iff in L2; rewrite L2; reflexivity.
  - rewrite <- E2; apply N.compare_lt_iff in L1; rewrite L1; reflexivity.
  - assert (L : (N_of_ascii x < N_of_ascii z)%N) by lia.
    apply N.compare_lt_iff in L; rewrite L; reflexivity.
Qed.

Lemma str_leb_trans a b c :
  str_leb a b = true -> str_leb b c = true -> str_leb a c = true.
Proof.
  unfold str_leb.
  destruct (str_compare a b) eqn:E1; try discriminate;
    destruct (str_compare b c) eqn:E2; try discriminate; intros _ _.
  - apply str_compare_Eq in E1, E2; subst; rewrite str_compare_refl;
      reflexivity.
  - apply str_compare_Eq in E1; subst; rewrite E2; reflexivity.
  - apply str_compare_Eq in E2; subst; rewrite E1; reflexivity.
  - rewrite (str_compare_Lt_trans a b c E1 E2); reflexivity.
Qed.

Lemma str_leb_antisym a b :
  str_leb a b = true -> str_leb b a = true -> a = b.
Proof.
  unfold str_leb; rewrite (str_compare_antisym a b).
  destruct (str_compare a b) eqn:E; simpl; try discriminate.
  intros _ _; apply str_compare_Eq; exact E.
Qed.

(** Two ascending arrangements of the same strings are the same list. *)
Lemma sorted_perm_eq l : forall l',
  Sorted (fun a b => str_leb a b = true) l ->
  Sorted (fun a b => str_leb a b = true) l' ->
  Permutation l l' -> l = l'.
Proof.
  assert (T : Relations_1.Transitive (fun a b => str_leb a b = true)).
  { intros a b c; apply str_leb_trans. }
  induction l as [|x l IH]; intros l' Hs Hs' Hp.
  - apply Permutation_nil in Hp; congruence.
  - destruct l' as [|y l'].
    + apply Permutation_sym, Permutation_nil in Hp; discriminate.
    + apply Sorted_StronglySorted in Hs; [|exact T].
      apply Sorted_StronglySorted in Hs'; [|exact T].
      inversion Hs as [|? ? Hsl Hx]; inversion Hs' as [|? ? Hsl' Hy]; subst.
      assert (E : x = y).
      { assert (Hxin : In x (y :: l'))
          by (apply (Permutation_in _ Hp); left; reflexivity).
        assert (Hyin : In y (x :: l))
          by (apply (Permutation_in _ (Permutation_sym Hp)); left;
              reflexivity).
        destruct Hxin as [E | Hxin]; [congruence|].
        destruct Hyin as [E | Hyin]; [congruence|].
        rewrite Forall_forall in Hx, Hy.
        apply str_leb_antisym; [apply Hx | apply Hy]; assumption. }
      subst y; f_equal.
      apply IH.
      * apply StronglySorted_Sorted; assumption.
      * apply StronglySorted_Sorted; assumption.
      * apply (Permutation_cons_inv Hp).
Qed.

(** [files.sort()] does not depend on the order [glob] lists the files
    in. *)
Lemma sort_perm_eq l l' :
  Permutation l l' -> sort str_leb l = sort str_leb l'.
Proof.
  intros Hp; apply sorted_perm_eq.
  - apply sort_sorted, str_leb_total.
  - apply sort_sorted, str_leb_total.
  - rewrite (sort_perm str_leb l), (sort_perm str_leb l'); exact Hp.
Qed.

End OrderFacts.
Import OrderFacts.

(** ** More on the engine: counts, writes and outcomes *)

Module EngineExtras.

Lemma contribution_nonempty W o file c :
  In c (contribution W o file) ->
  nonempty c = true /\ passes W o file = true /\ has_content W file = true.
Proof.
  unfold contribution, has_content.
  destruct (read_note W file) as [| |data body] eqn:E; try contradiction.
  destruct (passes W o file); cbn [andb]; [|contradiction].
  destruct (nonempty (extract_content body)) eqn:Hn; [|contradiction].
  intros [<- | []]; auto.
Qed.

Lemma contribution_length W o file :
  List.length (contribution W o file)
  = if passes W o file && has_content W file then 1 else 0.
Proof.
  unfold contribution, has_content.
  destruct (read_note W file) as [| |data body];
    rewrite ?andb_false_r; try reflexivity.
  destruct (passes W o file && nonempty (extract_content body)); reflexivity.
Qed.

Lemma contributions_length W o files :
  List.length (flat_map (contribution W o) files)
  = List.length
      (filter (fun f => passes W o f && has_content W f) files).
Proof.
  induction files as [|f files IH]; [reflexivity|].
  cbn [flat_map filter]; rewrite length_app, contribution_length, IH.
  destruct (passes W o f && has_content W f); reflexivity.
Qed.

Lemma filter_and_length (p q : jsstring -> bool) files :
  List.length (filter (fun f => p f && q f) files)
  <= List.length (filter p files).
Proof.
  induction files as [|f files IH]; [reflexivity|].
  cbn [filter]; destruct (p f), (q f); simpl; lia.
Qed.

Lemma filter_nil_iff (p : jsstring -> bool) files :
  filter p files = [] <-> forall f, In f files -> p f = false.
Proof.
  induction files as [|f files IH]; simpl.
  - split; [intros _ g [] | reflexivity].
  - destruct (p f) eqn:E; split.
    + discriminate.
    + intros H; rewrite (H f (or_introl eq_refl)) in E; discriminate.
    + intros H g [<- | Hg]; [exact E | apply IH; assumption].
    + intros H; apply IH; intros g Hg; apply H; right; exact Hg.
Qed.

(** The content list of a call, in the order the loop builds it. *)
Lemma contents_eq W o files :
  aggregatedContent (process_files W o files)
  = flat_map (contribution W o) (sort str_leb files).
Proof. rewrite process_files_eq; reflexivity. Qed.

Lemma contents_length W o files :
  List.length (aggregatedContent (process_files W o files))
  = List.length
      (filter (fun f => passes W o f && has_content W f) files).
Proof.
  rewrite contents_eq, contributions_length.
  apply filter_length_perm, sort_perm.
Qed.


(** X1: a successful call reports as [filesProcessed] the number of files
    the date filter keeps, readable or not, and
    [1 <= notesIncluded <= filesProcessed <= number of files found]. *)
Theorem counts_are_ordered P W today o W' s :
  aggregateNotes P W today o = (W', Ok s) ->
  exists found,
    glob_sync W (path_join P (notesDir o) (str "*.md")) = Some found
    /\ filesProcessed s = List.length (date_filter P o found)
    /\ 1 <= notesIncluded s
    /\ notesIncluded s <= filesProcessed s
    /\ filesProcessed s <= List.length found.
Proof.
  intros H.
  destruct (aggregateNotes_ok P W today o W' s H)
    as (found & Hv & He & Hg & Hs & _).
  exists found; split; [exact Hg|].
  rewrite (aggregateNotes_found P W today o found Hv He Hg) in H.
  cbv zeta in H.
  destruct (List.length (date_filter P o found) =? 0)%nat; [discriminate|].
  destruct (List.length (aggregatedContent _) =? 0)%nat eqn:Hc;
    [discriminate|].
  apply Nat.eqb_neq in Hc; rewrite contents_length in Hc.
  rewrite Hs, process_files_eq;
    cbn [filesProcessed notesIncluded processedCount includedCount].
  pose proof (filter_and_length (passes W o) (has_content W)
                (date_filter P o found)) as Hle.
  pose proof (filter_length_le (passes W o) (date_filter P o found)).
  repeat split; try lia.
  unfold date_filter; destruct (has_date_bound o); [|lia].
  apply filter_length_le.
Qed.

Lemma counts_are_ordered_witness :
  exists found,
    glob_sync (vault [jan01; jan02; jan03])
      (path_join posix (notesDir (request (Some [str "trip"]) [] [] []))
         (str "*.md")) = Some found
    /\ 3 = List.length
             (date_filter posix (request (Some [str "trip"]) [] [] []) found)
    /\ 1 <= 2 /\ 2 <= 3 /\ 3 <= List.length found.
Proof.
  exact (counts_are_ordered posix (vault [jan01; jan02; jan03])
           (str "2024-03-01") (request (Some [str "trip"]) [] [] []) _
           {| outputFile := str "output/trip-2024-03-01.md";
              filesProcessed := 3; notesIncluded := 2 |}
           eq_refl).
Defined.



(** X3: once the options are valid, no output file is in the way and
    [glob] has answered, the call fails with [NoMatchingNotes] exactly when
    the date filter keeps some file and no kept file both passes the two
    tests and has content left after extraction. *)
Theorem no_matching_notes_iff P W today o found :
  valid_options o = true ->
  exists_path W (aggregatedFilename P today o) = false ->
  glob_sync W (path_join P (notesDir o) (str "*.md")) = Some found ->
  (snd (aggregateNotes P W today o) = Err NoMatchingNotes
   <-> date_filter P o found <> []
       /\ forall f, In f (date_filter P o found) ->
                    passes W o f && has_content W f = false).
Proof.
  intros Hv He Hg; rewrite (aggregateNotes_found P W today o found Hv He Hg).
  cbv zeta.
  destruct (date_filter P o found) as [|f0 fs] eqn:Ed.
  - cbn [List.length Nat.eqb snd]; split.
    + destruct (has_date_bound o); discriminate.
    + intros [H _]; congruence.
  - cbn [List.length Nat.eqb].
    destruct (List.length (aggregatedContent _) =? 0)%nat eqn:Hc.
    + cbn [snd]; split; [intros _|reflexivity].
      split; [discriminate|].
      apply Nat.eqb_eq in Hc; rewrite contents_length in Hc.
      apply length_zero_iff_nil in Hc.
      apply (filter_nil_iff (fun f => passes W o f && has_content W f)).
      exact Hc.
    + apply Nat.eqb_neq in Hc; rewrite contents_length in Hc.
      split.
      * destruct (can_write W _); discriminate.
      * intros [_ H]; exfalso; apply Hc.
        apply length_zero_iff_nil.
        apply (filter_nil_iff (fun f => passes W o f && has_content W f)).
        exact H.
Qed.

Lemma no_matching_notes_iff_witness :
  snd (aggregateNotes posix (vault [jan01; jan02]) (str "2024-03-01")
         (request (Some [str "nonexistent"]) [] [] []))
  = Err NoMatchingNotes
  <-> date_filter posix (request (Some [str "nonexistent"]) [] [] [])
        (map fst [jan01; jan02]) <> []
      /\ forall f,
           In f (date_filter posix (request (Some [str "nonexistent"]) [] [] [])
                   (map fst [jan01; jan02])) ->
           passes (vault [jan01; jan02])
             (request (Some [str "nonexistent"]) [] [] []) f
           && has_content (vault [jan01; jan02]) f = false.
Proof.
  exact (no_matching_notes_iff posix (vault [jan01; jan02]) (str "2024-03-01")
           (request (Some [str "nonexistent"]) [] [] [])
           (map fst [jan01; jan02]) eq_refl eq_refl eq_refl).
Defined.

End EngineExtras.
Import EngineExtras.

(** ** More on the engine: the order of the files and the filters *)

Module FilterExtras.

Lemma passes_ext W1 W2 o f :
  (forall q, read_note W1 q = read_note W2 q) ->
  passes W1 o f = passes W2 o f.
Proof. intros H; unfold passes; rewrite H; reflexivity. Qed.

Lemma process_files_ext W1 W2 o files :
  (forall q, read_note W1 q = read_note W2 q) ->
  process_files W1 o files = process_files W2 o files.
Proof.
  intros H; rewrite !process_files_eq; f_equal.
  - apply flat_map_ext; intros f; unfold contribution.
    rewrite (passes_ext W1 W2 o f H), H; reflexivity.
  - f_equal; apply filter_ext; intros f; apply passes_ext; exact H.
Qed.

Lemma process_files_perm W o l l' :
  Permutation l l' -> process_files W o l = process_files W o l'.
Proof.
  intros Hp; unfold process_files; rewrite (sort_perm_eq l l' Hp); reflexivity.
Qed.

Lemma date_filter_perm P o l l' :
  Permutation l l' -> Permutation (date_filter P o l) (date_filter P o l').
Proof.
  intros Hp; unfold date_filter; destruct (has_date_bound o); [|exact Hp].
  induction Hp as [|x l l' _ IH|x y l|l l' l'' _ IH1 _ IH2]; simpl.
  - constructor.
  - destruct (in_date_range P o x); [constructor|]; exact IH.
  - destruct (in_date_range P o x), (in_date_range P o y);
      try reflexivity; apply perm_swap.
  - etransitivity; eassumption.
Qed.

(** X4: the files are sorted before they are processed, so the outcome of
    a call and the file it writes do not depend on the order in which
    [glob] lists the directory. *)
Theorem glob_order_is_irrelevant P W1 W2 today o found1 found2 :
  (forall q, exists_path W1 q = exists_path W2 q) ->
  (forall q, read_note W1 q = read_note W2 q) ->
  (forall q, can_write W1 q = can_write W2 q) ->
  written W1 = written W2 ->
  glob_sync W1 (path_join P (notesDir o) (str "*.md")) = Some found1 ->
  glob_sync W2 (path_join P (notesDir o) (str "*.md")) = Some found2 ->
  Permutation found1 found2 ->
  snd (aggregateNotes P W1 today o) = snd (aggregateNotes P W2 today o)
  /\ written (fst (aggregateNotes P W1 today o))
     = written (fst (aggregateNotes P W2 today o)).
Proof.
  intros He Hr Hc Hw Hg1 Hg2 Hp.
  unfold aggregateNotes; rewrite Hg1, Hg2, <- He, <- Hc.
  destruct (negb _ || negb _); [auto|].
  destruct (invalid_required _); [auto|].
  destruct (exists_path W1 _); [auto|].
  pose proof (date_filter_perm P o found1 found2 Hp) as Hd.
  rewrite <- (Permutation_length Hd).
  destruct (List.length (date_filter P o found1) =? 0)%nat; [auto|].
  rewrite <- (process_files_ext W1 W2 o _ Hr).
  rewrite <- (process_files_perm W1 o _ _ Hd).
  destruct (List.length (aggregatedContent _) =? 0)%nat; [auto|].
  cbv zeta; destruct (can_write W1 _);
    cbn [fst snd write_file ensure_dir written]; rewrite Hw; auto.
Qed.

Lemma glob_order_is_irrelevant_witness :
  snd (aggregateNotes posix (vault [jan02; jan01]) (str "2024-03-01")
         (request None [] [] []))
  = snd (aggregateNotes posix (vault [jan01; jan02]) (str "2024-03-01")
           (request None [] [] []))
  /\ written (fst (aggregateNotes posix (vault [jan02; jan01])
                     (str "2024-03-01") (request None [] [] [])))
     = written (fst (aggregateNotes posix (vault [jan01; jan02])
                       (str "2024-03-01") (request None [] [] []))).
Proof.
  apply (glob_order_is_irrelevant posix (vault [jan02; jan01])
           (vault [jan01; jan02]) (str "2024-03-01") (request None [] [] [])
           (map fst [jan02; jan01]) (map fst [jan01; jan02])).
  - intros q; cbn [vault exists_path existsb map fst jan01 jan02].
    destruct (str_eqb q (str "vault/daily")); cbn [orb]; [reflexivity|].
    rewrite !orb_false_r; apply orb_comm.
  - intros q; cbn [vault read_note].
    unfold lookup; cbn [find fst snd jan01 jan02].
    destruct (str_eqb (str "vault/daily/2024-01-02.md") q) eqn:E2;
      destruct (str_eqb (str "vault/daily/2024-01-01.md") q) eqn:E1;
      try reflexivity.
    apply str_eqb_eq in E1, E2; subst q; discriminate.
  - reflexivity.
  - reflexivity.
  - reflexivity.
  - reflexivity.
  - apply perm_swap.
Defined.

(** X5: the tag filter is match-any and the privacy filter an allow-list:
    adding tags to [requiredTags] or dropping the tag constraint, and
    adding levels to a non-empty [allowedPrivacy] or emptying it, never
    loses a note, so the count of included notes cannot go down. *)
Theorem wider_filter_keeps_notes W o o' :
  (requiredTags o' = None
   \/ exists r r', requiredTags o = Some r /\ requiredTags o' = Some r'
                   /\ incl r r') ->
  (allowedPrivacy o' = []
   \/ (allowedPrivacy o <> []
       /\ incl (allowedPrivacy o) (allowedPrivacy o'))) ->
  (forall f, passes W o f = true -> passes W o' f = true)
  /\ forall files,
       includedCount (process_files W o files)
       <= includedCount (process_files W o' files).
Proof.
  intros Ht Hp.
  assert (Hpass : forall f, passes W o f = true -> passes W o' f = true).
  { intros f; unfold passes.
    destruct (read_note W f) as [| |data body]; try discriminate.
    intros H; apply andb_true_iff in H as [H1 H2]; apply andb_true_iff; split.
    - destruct Ht as [-> | (r & r' & Hr & -> & Hi)]; [reflexivity|].
      rewrite Hr in H1.
      apply hasRequiredTag_iff in H1 as [Hne (t & Hin & Hreq)].
      apply hasRequiredTag_iff; split; [exact Hne|].
      exists t; split; [exact Hin | apply Hi; exact Hreq].
    - destruct Hp as [-> | [Hne Hi]]; [reflexivity|].
      unfold hasAllowedPrivacy in *.
      destruct (allowedPrivacy o) as [|a l] eqn:Ea; [congruence|].
      cbn [List.length Nat.eqb orb] in H2.
      destruct (privacy data) as [p|]; [|discriminate].
      apply andb_true_iff in H2 as [Htr Hin].
      rewrite Htr; cbn [andb].
      apply (includes_In scalar_eqb scalar_eqb_eq) in Hin.
      apply orb_true_iff; right.
      apply (includes_In scalar_eqb scalar_eqb_eq), Hi, Hin. }
  split; [exact Hpass|].
  intros files; rewrite !process_files_eq; cbn [includedCount].
  induction files as [|f files IH]; [reflexivity|].
  cbn [filter]; specialize (Hpass f).
  destruct (passes W o f), (passes W o' f); cbn [List.length];
    try discriminate (Hpass eq_refl); lia.
Qed.

Lemma wider_filter_keeps_notes_witness :
  includedCount (process_files (vault [jan01; jan02])
                   (request (Some [str "trip"]) [SStr (str "public")] [] [])
                   (map fst [jan01; jan02]))
  <= includedCount (process_files (vault [jan01; jan02])
                      (request (Some [str "trip"; str "work"]) [] [] [])
                      (map fst [jan01; jan02])).
Proof.
  refine (proj2 (wider_filter_keeps_notes (vault [jan01; jan02])
           (request (Some [str "trip"]) [SStr (str "public")] [] [])
           (request (Some [str "trip"; str "work"]) [] [] []) _ _)
           (map fst [jan01; jan02])).
  - right; exists [str "trip"], [str "trip"; str "work"].
    split; [reflexivity|]; split; [reflexivity|].
    intros a [<- | []]; left; reflexivity.
  - left; reflexivity.
Defined.

(** X6: dates are compared as strings, both bounds inclusive.  A range
    whose start is greater than its end keeps no file, so the call fails
    with [NoFilesInRange]; a range whose start and end are the same day
    keeps exactly the files named after that day. *)
Theorem date_range_edges P o :
  (nonempty (startDate o) = true -> nonempty (endDate o) = true ->
   str_leb (startDate o) (endDate o) = false ->
   (forall found, date_filter P o found = [])
   /\ forall W today found,
        valid_options o = true ->
        exists_path W (aggregatedFilename P today o) = false ->
        glob_sync W (path_join P (notesDir o) (str "*.md")) = Some found ->
        aggregateNotes P W today o = (W, Err NoFilesInRange))
  /\ (nonempty (startDate o) = true -> endDate o = startDate o ->
      forall f, in_date_range P o f = true
                <-> path_basename_ext P f (str ".md") = startDate o).
Proof.
  split.
  - intros Hs He Hinv.
    assert (Hb : has_date_bound o = true)
      by (unfold has_date_bound; rewrite Hs; reflexivity).
    assert (Hnil : forall found, date_filter P o found = []).
    { intros found; unfold date_filter; rewrite Hb.
      apply filter_nil_iff; intros f _.
      unfold in_date_range, str_geb; rewrite Hs, He; cbn [negb orb].
      set (d := path_basename_ext P f (str ".md")).
      destruct (str_leb (startDate o) d) eqn:E1; [|reflexivity].
      destruct (str_leb d (endDate o)) eqn:E2; [|reflexivity].
      rewrite (str_leb_trans _ _ _ E1 E2) in Hinv; discriminate. }
    split; [exact Hnil|].
    intros W today found Hv Hex Hg.
    rewrite (aggregateNotes_found P W today o found Hv Hex Hg).
    cbv zeta; rewrite Hnil, Hb; reflexivity.
  - intros Hs He f; unfold in_date_range, str_geb; rewrite He, Hs.
    cbn [negb orb]; rewrite andb_true_iff; split.
    + intros [H1 H2]; apply str_leb_antisym; assumption.
    + intros ->; rewrite str_leb_refl; auto.
Qed.

Lemma date_range_edges_witness :
  aggregateNotes posix (vault [jan01; jan02]) (str "2024-03-01")
    (request None [] (str "2024-01-02") (str "2024-01-01"))
  = (vault [jan01; jan02], Err NoFilesInRange).
Proof.
  apply (proj2 (proj1 (date_range_edges posix
           (request None [] (str "2024-01-02") (str "2024-01-01")))
           eq_refl eq_refl eq_refl)
           (vault [jan01; jan02]) (str "2024-03-01") (map fst [jan01; jan02]));
    reflexivity.
Defined.

End FilterExtras.

(** ** More on the engine: the file name and the generated tags *)

Module NamingExtras.

Lemma sanitize_char c :
  let lowersafe := fun c : ascii =>
    (Ascii.leb "a" c && Ascii.leb c "z") || is_digit c
    || (c =? "_")%char || (c =? "-")%char in
  let d := lower (if filename_char c then c else "-"%char) in
  lowersafe d = true /\ (lowersafe c = true -> d = c).
Proof.
  destruct c as [[] [] [] [] [] [] [] []]; vm_compute; split;
    congruence.
Qed.

(** X7: the file-name token made from a tag has the length of the tag and
    only characters of [a-z0-9_-] (so no slash, dot or upper-case letter
    reaches the file name); sanitizing is idempotent, and a tag already
    made of those characters is kept as it is. *)
Theorem sanitize_is_filename_safe (tag : jsstring) :
  List.length (sanitize tag) = List.length tag
  /\ forallb (fun c => (Ascii.leb "a" c && Ascii.leb c "z") || is_digit c
                       || (c =? "_")%char || (c =? "-")%char)
       (sanitize tag) = true
  /\ sanitize (sanitize tag) = sanitize tag
  /\ (forallb (fun c => (Ascii.leb "a" c && Ascii.leb c "z") || is_digit c
                        || (c =? "_")%char || (c =? "-")%char) tag = true ->
      sanitize tag = tag).
Proof.
  assert (Hs : forall t, sanitize t
    = map (fun x => lower (if filename_char x then x else "-"%char)) t).
  { intros t; unfold sanitize; rewrite map_map; reflexivity. }
  rewrite !Hs.
  assert (Hsafe : forallb
    (fun c => (Ascii.leb "a" c && Ascii.leb c "z") || is_digit c
              || (c =? "_")%char || (c =? "-")%char)
    (map (fun x => lower (if filename_char x then x else "-"%char)) tag)
    = true).
  { induction tag as [|c tag IH]; [reflexivity|].
    cbn [map forallb]; rewrite IH, andb_true_r.
    apply (proj1 (sanitize_char c)). }
  assert (Hid : forall t,
    forallb (fun c => (Ascii.leb "a" c && Ascii.leb c "z") || is_digit c
                      || (c =? "_")%char || (c =? "-")%char) t = true ->
    map (fun x => lower (if filename_char x then x else "-"%char)) t = t).
  { induction t as [|c t IH]; [reflexivity|].
    cbn [map forallb]; intros H; apply andb_true_iff in H as [Hc Ht].
    rewrite (IH Ht); f_equal.
    apply (proj2 (sanitize_char c)); exact Hc. }
  split; [apply length_map|].
  split; [exact Hsafe|].
  split; [apply Hid; exact Hsafe | apply Hid].
Qed.

Lemma sanitize_is_filename_safe_witness :
  sanitize (str "work-journal_2024") = str "work-journal_2024".
Proof.
  apply (proj2 (proj2 (proj2 (sanitize_is_filename_safe
           (str "work-journal_2024"))))).
  reflexivity.
Defined.

Lemma indexOf_notin pre : forall t r,
  ~ In t pre ->
  indexOf str_eqb (pre ++ t :: r) t = Some (List.length pre).
Proof.
  induction pre as [|y pre IH]; intros t r Hn; cbn [app indexOf List.length].
  - rewrite str_eqb_refl; reflexivity.
  - destruct (str_eqb y t) eqn:E.
    + apply str_eqb_eq in E; subst; elim Hn; left; reflexivity.
    + rewrite IH; [reflexivity|].
      intros Hin; apply Hn; right; exact Hin.
Qed.

Lemma indexOf_in pre : forall t l,
  In t pre ->
  exists j, j < List.length pre /\ indexOf str_eqb (pre ++ l) t = Some j.
Proof.
  induction pre as [|y pre IH]; intros t l Hin; [contradiction|].
  cbn [app indexOf List.length].
  destruct (str_eqb y t) eqn:E.
  - exists 0; split; [lia|reflexivity].
  - destruct Hin as [-> | Hin]; [rewrite str_eqb_refl in E; discriminate|].
    destruct (IH t l Hin) as (j & Hj & ->).
    exists (S j); split; [lia|reflexivity].
Qed.

Lemma unique_truthy_from_spec l : forall pre,
  NoDup (unique_truthy_from (pre ++ l) (List.length pre) l)
  /\ forall x,
       In x (unique_truthy_from (pre ++ l) (List.length pre) l)
       <-> nonempty x = true /\ In x l /\ ~ In x pre.
Proof.
  induction l as [|t r IH]; intros pre.
  - split; [constructor|]; intros x; simpl; tauto.
  - cbn [unique_truthy_from].
    specialize (IH (pre ++ [t])).
    rewrite <- app_assoc, length_app in IH; cbn [app List.length] in IH.
    rewrite Nat.add_1_r in IH.
    destruct IH as [Hnd Hin].
    assert (Hx : forall x, In x (pre ++ [t]) <-> In x pre \/ x = t).
    { intros x; rewrite in_app_iff; simpl; intuition congruence. }
    destruct (in_dec (list_eq_dec ascii_dec) t pre) as [Hp | Hp].
    + destruct (indexOf_in pre t (t :: r) Hp) as (j & Hj & ->).
      assert (E : (j =? List.length pre)%nat = false)
        by (apply Nat.eqb_neq; lia).
      rewrite E, andb_false_r.
      split; [exact Hnd|].
      intros x; rewrite Hin, Hx; cbn [In]; split.
      * intros (H1 & H2 & H3); split; [exact H1|]; split; [right; exact H2|].
        intros H; apply H3; left; exact H.
      * intros (H1 & [Ex | H2] & H3); [subst x; contradiction|].
        split; [exact H1|]; split; [exact H2|].
        intros [H | Ex]; [contradiction | subst x; contradiction].
    + rewrite (indexOf_notin pre t r Hp), Nat.eqb_refl, andb_true_r.
      destruct (nonempty t) eqn:Et.
      * split.
        -- constructor; [|exact Hnd].
           rewrite Hin, Hx; intros (_ & _ & H); apply H; right; reflexivity.
        -- intros x; cbn [In]; rewrite Hin, Hx; split.
           ++ intros [Ex | (H1 & H2 & H3)].
              ** subst x; split; [exact Et|]; split; [left; reflexivity|].
                 exact Hp.
              ** split; [exact H1|]; split; [right; exact H2|].
                 intros H; apply H3; left; exact H.
           ++ intros (H1 & [Ex | H2] & H3); [left; exact Ex|].
              destruct (list_eq_dec ascii_dec t x) as [Exx | Hne];
                [left; exact Exx | right].
              split; [exact H1|]; split; [exact H2|].
              intros [H | Ex]; [contradiction | subst x; congruence].
      * split; [exact Hnd|].
        intros x; rewrite Hin, Hx; cbn [In]; split.
        -- intros (H1 & H2 & H3); split; [exact H1|]; split; [right; exact H2|].
           intros H; apply H3; left; exact H.
        -- intros (H1 & [Ex | H2] & H3); [subst x; congruence|].
           split; [exact H1|]; split; [exact H2|].
           intros [H | Ex]; [contradiction | subst x; congruence].
Qed.

(** X8: the [tags] of the generated frontmatter start with ["aggregated"],
    hold no duplicate and no empty string, and are exactly the non-empty
    strings among ["aggregated"], the file-name token and [newNoteTags]. *)
Theorem generated_tags_are_unique P today o :
  (exists rest,
     fm_tags (newFrontmatter P today o) = str "aggregated" :: rest)
  /\ NoDup (fm_tags (newFrontmatter P today o))
  /\ forall t,
       In t (fm_tags (newFrontmatter P today o))
       <-> t <> []
           /\ (t = str "aggregated" \/ t = safeTagForFilename o
               \/ In t (newNoteTags o)).
Proof.
  cbn [newFrontmatter fm_tags]; unfold unique_truthy.
  split; [eexists; cbn [unique_truthy_from]; reflexivity|].
  destruct (unique_truthy_from_spec
              (str "aggregated" :: safeTagForFilename o :: newNoteTags o) [])
    as [Hnd Hin].
  cbn [app List.length] in Hnd, Hin.
  split; [exact Hnd|].
  intros t; rewrite Hin; cbn [In]; split.
  - intros (H1 & H2 & _); split; [destruct t; [discriminate|congruence]|].
    intuition congruence.
  - intros (H1 & H2); split; [destruct t; [congruence|reflexivity]|].
    split; [intuition congruence | tauto].
Qed.

End NamingExtras.

(** ** More on the scanner *)

Module ScannerExtras.

Lemma set_add_In {A} (eqb : A -> A -> bool)
  (eqb_eq : forall a b, eqb a b = true <-> a = b) set x y :
  In y (set_add eqb set x) <-> In y set \/ y = x.
Proof.
  unfold set_add; destruct (includes eqb set x) eqn:E.
  - apply (includes_In eqb eqb_eq) in E.
    split; [auto|]; intros [H | ->]; assumption.
  - rewrite in_app_iff; simpl; intuition congruence.
Qed.

Lemma fold_tags_In items : forall set t,
  In t (fold_left (fun set tag =>
                     match tag with
                     | SStr s => if truthy tag
                                 then set_add str_eqb set (trim s) else set
                     | _ => set
                     end) items set)
  <-> In t set
      \/ exists s, In (SStr s) items /\ s <> [] /\ t = trim s.
Proof.
  induction items as [|v items IH]; intros set t; cbn [fold_left].
  - split; [auto|]; intros [H | (s & [] & _)]; exact H.
  - rewrite IH; clear IH; cbn [In].
    assert (Hex :
      (exists s, (v = SStr s \/ In (SStr s) items) /\ s <> [] /\ t = trim s)
      <-> (exists s, v = SStr s /\ s <> [] /\ t = trim s)
          \/ (exists s, In (SStr s) items /\ s <> [] /\ t = trim s)).
    { split.
      - intros (s & [E | H1] & H2); [left | right]; exists s; auto.
      - intros [(s & E & H2) | (s & H1 & H2)]; exists s; auto. }
    rewrite Hex; clear Hex.
    assert (Hv :
      In t match v with
           | SStr s => if truthy v then set_add str_eqb set (trim s) else set
           | _ => set
           end
      <-> In t set \/ exists s, v = SStr s /\ s <> [] /\ t = trim s).
    { destruct v as [| | |s0];
        try (split; [intros H; left; exact H|]; intros [H | (s & E & _)];
             [exact H | discriminate]).
      cbn [truthy]; destruct s0 as [|c s0]; cbn [nonempty].
      - split; [intros H; left; exact H|];
          intros [H | (s & E & Hne & _)]; [exact H|].
        inversion E; subst; congruence.
      - rewrite (set_add_In str_eqb str_eqb_eq); split.
        + intros [H | ->]; [left; exact H | right].
          exists (c :: s0); split; [reflexivity|].
          split; [discriminate|reflexivity].
        + intros [H | (s & E & _ & ->)]; [left; exact H | right].
          inversion E; reflexivity. }
    rewrite Hv; tauto.
Qed.

Lemma collect_In data acc :
  (forall t, In t (fst (collect data acc))
             <-> In t (fst acc) \/ tag_entry data t)
  /\ (forall p, In p (snd (collect data acc))
                <-> In p (snd acc) \/ privacy_entry data p).
Proof.
  unfold collect, tag_entry, privacy_entry; cbn [fst snd]; split.
  - intros t; destruct (tags data) as [|v|items] eqn:E.
    + split; [auto|]; intros [H | (i & s & H & _)]; [exact H|discriminate].
    + split; [auto|]; intros [H | (i & s & H & _)]; [exact H|discriminate].
    + rewrite fold_tags_In; split; (intros [H | H]; [left; exact H | right]).
      * destruct H as (s & H); exists items, s; auto.
      * destruct H as (i & s & Hi & H); inversion Hi; subst; exists s; exact H.
  - intros p; destruct (privacy data) as [q|].
    + destruct (truthy q) eqn:Eq.
      * rewrite (set_add_In scalar_eqb scalar_eqb_eq); split.
        -- intros [H | ->]; auto.
        -- intros [H | [H _]]; [auto|]; inversion H; auto.
      * split; [auto|]; intros [H | [H1 H2]]; [exact H|].
        inversion H1; subst; congruence.
    + split; [auto|]; intros [H | [H _]]; [exact H|discriminate].
Qed.

Lemma scan_In W files : forall acc,
  (forall t, In t (fst (fold_left (scan_file W) files acc))
             <-> In t (fst acc)
                 \/ exists f data body,
                      In f files /\ read_note W f = Parsed data body
                      /\ tag_entry data t)
  /\ (forall p, In p (snd (fold_left (scan_file W) files acc))
                <-> In p (snd acc)
                    \/ exists f data body,
                         In f files /\ read_note W f = Parsed data body
                         /\ privacy_entry data p).
Proof.
  induction files as [|f files IH]; intros acc; cbn [fold_left].
  - split; intros x; (split; [auto|]);
      intros [H | (g & d & b & [] & _)]; exact H.
  - destruct (IH (scan_file W acc f)) as [IHt IHp]; clear IH.
    assert (Hstep :
      (forall t, In t (fst (scan_file W acc f))
                 <-> In t (fst acc)
                     \/ exists data body,
                          read_note W f = Parsed data body
                          /\ tag_entry data t)
      /\ (forall p, In p (snd (scan_file W acc f))
                    <-> In p (snd acc)
                        \/ exists data body,
                             read_note W f = Parsed data body
                             /\ privacy_entry data p)).
    { unfold scan_file; destruct (read_note W f) as [| |data body];
        try (split; intros x; (split; [intros H; left; exact H|]);
             (intros [H | (d & b & H & _)]; [exact H | discriminate])).
      destruct (collect_In data acc) as [Ht Hp]; split; intros x.
      - rewrite Ht; split; (intros [H | H]; [left; exact H | right]).
        + exists data, body; auto.
        + destruct H as (d & b & E & H); inversion E; subst; exact H.
      - rewrite Hp; split; (intros [H | H]; [left; exact H | right]).
        + exists data, body; auto.
        + destruct H as (d & b & E & H); inversion E; subst; exact H. }
    destruct Hstep as [St Sp]; split; intros x.
    + rewrite IHt, St; cbn [In]; split.
      * intros [[H | (d & b & H1 & H2)] | (g & d & b & H1 & H2)].
        -- left; exact H.
        -- right; exists f, d, b; auto.
        -- right; exists g, d, b; auto.
      * intros [H | (g & d & b & [<- | H1] & H2)].
        -- left; left; exact H.
        -- left; right; exists d, b; exact H2.
        -- right; exists g, d, b; auto.
    + rewrite IHp, Sp; cbn [In]; split.
      * intros [[H | (d & b & H1 & H2)] | (g & d & b & H1 & H2)].
        -- left; exact H.
        -- right; exists f, d, b; auto.
        -- right; exists g, d, b; auto.
      * intros [H | (g & d & b & [<- | H1] & H2)].
        -- left; left; exact H.
        -- left; right; exists d, b; exact H2.
        -- right; exists g, d, b; auto.
Qed.

(** What a scan of an existing directory returns, entry by entry. *)
Lemma scan_membership P W dir r :
  getAvailableOptions P W dir = Ok r ->
  exists_path W dir = true ->
  exists files,
    glob_sync W (path_join P dir (str "*.md")) = Some files
    /\ (forall t, In t (av_tags r)
                  <-> exists f data body,
                        In f files /\ read_note W f = Parsed data body
                        /\ tag_entry data t)
    /\ (forall p, In p (av_privacyLevels r)
                  <-> exists f data body,
                        In f files /\ read_note W f = Parsed data body
                        /\ privacy_entry data p).
Proof.
  unfold getAvailableOptions; intros H He; rewrite He in H; cbn [negb] in H.
  destruct (glob_sync W _) as [files|]; [|discriminate].
  inversion H; subst; clear H; exists files; split; [reflexivity|].
  cbn [av_tags av_privacyLevels].
  destruct (scan_In W files ([], [])) as [Ht Hp]; split; intros x.
  - split.
    + intros H.
      apply (Permutation_in _ (sort_perm str_leb _)) in H.
      apply Ht in H as [[] | H]; exact H.
    + intros H.
      apply (Permutation_in _ (Permutation_sym (sort_perm str_leb _))).
      apply Ht; right; exact H.
  - split.
    + intros H.
      apply (Permutation_in _ (sort_perm scalar_leb _)) in H.
      apply Hp in H as [[] | H]; exact H.
    + intros H.
      apply (Permutation_in _ (Permutation_sym (sort_perm scalar_leb _))).
      apply Hp; right; exact H.
Qed.

Lemma noteTags_clean data t :
  In t (noteTags data) -> t <> [] /\ trim t = t.
Proof.
  unfold noteTags; destruct (tags data) as [|v|items]; try contradiction.
  intros H; apply filter_In in H as [H Hne].
  apply in_map_iff in H as (v & <- & _); split.
  - intros E; rewrite E in Hne; discriminate.
  - apply trim_idem.
Qed.

Lemma tag_entry_noteTags data t :
  tag_entry data t -> t <> [] -> In t (noteTags data).
Proof.
  intros (items & s & Ht & Hin & _ & ->) Hne.
  unfold noteTags; rewrite Ht; apply filter_In; split.
  - apply (in_map (fun v => trim (to_String v)) items (SStr s) Hin).
  - destruct (trim s); [congruence|reflexivity].
Qed.

(** X9: on a directory that exists, a tag is reported exactly when some
    file that is read and parsed has it, trimmed, as a non-empty string
    entry of its [tags] array, and a privacy level exactly when it is the
    truthy [privacy] value of such a file; files that cannot be read or
    parsed add nothing and stop nothing. *)
Theorem scan_reports_exactly_the_entries P W dir r :
  getAvailableOptions P W dir = Ok r ->
  exists_path W dir = true ->
  exists files,
    glob_sync W (path_join P dir (str "*.md")) = Some files
    /\ (forall t, In t (av_tags r)
                  <-> exists f data body,
                        In f files /\ read_note W f = Parsed data body
                        /\ tag_entry data t)
    /\ (forall p, In p (av_privacyLevels r)
                  <-> exists f data body,
                        In f files /\ read_note W f = Parsed data body
                        /\ privacy_entry data p).
Proof. exact (scan_membership P W dir r). Qed.

Lemma scan_reports_exactly_the_entries_witness :
  exists files,
    glob_sync (vault [jan01; jan02; (str "vault/daily/bad.md", ParseError)])
      (path_join posix (str "vault/daily") (str "*.md")) = Some files
    /\ (forall t, In t [str "trip"; str "work"]
                  <-> exists f data body,
                        In f files
                        /\ read_note
                             (vault [jan01; jan02;
                                     (str "vault/daily/bad.md", ParseError)]) f
                           = Parsed data body
                        /\ tag_entry data t)
    /\ (forall p, In p [SStr (str "public")]
                  <-> exists f data body,
                        In f files
                        /\ read_note
                             (vault [jan01; jan02;
                                     (str "vault/daily/bad.md", ParseError)]) f
                           = Parsed data body
                        /\ privacy_entry data p).
Proof.
  exact (scan_reports_exactly_the_entries posix
           (vault [jan01; jan02; (str "vault/daily/bad.md", ParseError)])
           (str "vault/daily")
           {| av_tags := [str "trip"; str "work"];
              av_privacyLevels := [SStr (str "public")] |}
           eq_refl eq_refl).
Defined.

(** X10: the tags the engine compares with are trimmed and not empty, and
    [requiredTags] is compared as given: a required tag that is empty or
    has white space at either end matches no note.  The scanner, which
    trims after its emptiness test, reports the empty tag for a tag entry
    made of white space only. *)
Theorem blank_and_padded_tags P W dir :
  (forall data t, In t (noteTags data) -> t <> [] /\ trim t = t)
  /\ (forall req data,
        (forall t, In t req -> t = [] \/ trim t <> t) ->
        hasRequiredTag (Some req) data = false)
  /\ (forall r files f data body items s,
        getAvailableOptions P W dir = Ok r ->
        exists_path W dir = true ->
        glob_sync W (path_join P dir (str "*.md")) = Some files ->
        In f files ->
        read_note W f = Parsed data body ->
        tags data = Array items ->
        In (SStr s) items -> s <> [] -> trim s = [] ->
        In [] (av_tags r)).
Proof.
  split; [exact noteTags_clean|]; split.
  - intros req data Hreq.
    destruct (hasRequiredTag (Some req) data) eqn:E; [|reflexivity].
    apply hasRequiredTag_iff in E as [_ (t & Hin & Hr)].
    destruct (noteTags_clean data t Hin) as [Hne Htrim].
    destruct (Hreq t Hr); contradiction.
  - intros r files f data body items s Hscan He Hg Hf Hr Ht Hin Hne Htrim.
    destruct (scan_membership P W dir r Hscan He) as (files' & Hg' & Htags & _).
    rewrite Hg in Hg'; inversion Hg'; subst files'.
    apply Htags; exists f, data, body; split; [exact Hf|]; split; [exact Hr|].
    exists items, s; auto.
Qed.

Lemma blank_and_padded_tags_witness :
  hasRequiredTag (Some [str " trip"; []])
    {| tags := Array [SStr (str " trip")]; privacy := None |} = false
  /\ In [] (av_tags {| av_tags := [[]]; av_privacyLevels := [] |}).
Proof.
  split.
  - apply (proj1 (proj2 (blank_and_padded_tags posix (vault [])
                           (str "vault/daily")))).
    intros t [<- | [<- | []]]; [right; discriminate | left; reflexivity].
  - apply (proj2 (proj2 (blank_and_padded_tags posix
             (vault [(str "vault/daily/blank.md",
                      note [SStr (str "  ")] None (str "text"))])
             (str "vault/daily")))
             {| av_tags := [[]]; av_privacyLevels := [] |}
             [str "vault/daily/blank.md"] (str "vault/daily/blank.md")
             {| tags := Array [SStr (str "  ")]; privacy := None |}
             (str "text") [SStr (str "  ")] (str "  "));
      try reflexivity; try discriminate.
    + left; reflexivity.
    + left; reflexivity.
Defined.

(** X11: what the scanner offers, the engine accepts.  Every non-empty tag
    it reports is a tag of some listed note, which passes the tag test of
    every [requiredTags] holding that tag; every privacy level it reports
    is the level of some listed note, which passes the privacy test of
    every [allowedPrivacy] holding that level. *)
Theorem offered_options_select_a_note P W dir r :
  getAvailableOptions P W dir = Ok r ->
  (forall t, In t (av_tags r) -> t <> [] ->
     exists files f data body,
       glob_sync W (path_join P dir (str "*.md")) = Some files
       /\ In f files /\ read_note W f = Parsed data body
       /\ forall req, In t req -> hasRequiredTag (Some req) data = true)
  /\ (forall p, In p (av_privacyLevels r) ->
        exists files f data body,
          glob_sync W (path_join P dir (str "*.md")) = Some files
          /\ In f files /\ read_note W f = Parsed data body
          /\ forall allowed, In p allowed ->
                             hasAllowedPrivacy allowed data = true).
Proof.
  intros Hscan.
  destruct (exists_path W dir) eqn:He.
  - destruct (scan_membership P W dir r Hscan He) as (files & Hg & Ht & Hp).
    split.
    + intros t Hin Hne.
      apply Ht in Hin as (f & data & body & Hf & Hr & Hentry).
      exists files, f, data, body; repeat split; try assumption.
      intros req Hreq; apply hasRequiredTag_iff.
      pose proof (tag_entry_noteTags data t Hentry Hne) as Hnt.
      split; [intros E; rewrite E in Hnt; exact Hnt|].
      exists t; auto.
    + intros p Hin.
      apply Hp in Hin as (f & data & body & Hf & Hr & Hpriv & Htruthy).
      exists files, f, data, body; repeat split; try assumption.
      intros allowed Hal; unfold hasAllowedPrivacy.
      rewrite Hpriv, Htruthy; cbn [andb].
      apply orb_true_iff; right.
      apply (includes_In scalar_eqb scalar_eqb_eq); exact Hal.
  - unfold getAvailableOptions in Hscan; rewrite He in Hscan.
    inversion Hscan; subst; cbn [av_tags av_privacyLevels].
    split; intros x [].
Qed.

Lemma offered_options_select_a_note_witness :
  (forall t, In t [str "trip"; str "work"] -> t <> [] ->
     exists files f data body,
       glob_sync (vault [jan01; jan02])
         (path_join posix (str "vault/daily") (str "*.md")) = Some files
       /\ In f files
       /\ read_note (vault [jan01; jan02]) f = Parsed data body
       /\ forall req, In t req -> hasRequiredTag (Some req) data = true)
  /\ (forall p, In p [SStr (str "public")] ->
        exists files f data body,
          glob_sync (vault [jan01; jan02])
            (path_join posix (str "vault/daily") (str "*.md")) = Some files
          /\ In f files
          /\ read_note (vault [jan01; jan02]) f = Parsed data body
          /\ forall allowed, In p allowed ->
                             hasAllowedPrivacy allowed data = true).
Proof.
  exact (offered_options_select_a_note posix (vault [jan01; jan02])
           (str "vault/daily")
           {| av_tags := [str "trip"; str "work"];
              av_privacyLevels := [SStr (str "public")] |}
           eq_refl).
Defined.

End ScannerExtras.

(** ** More on content extraction *)

Module ExtractExtras.

Lemma trim_split_first body :
  trim (split_first true body) = trim (spec_before_sep true body).
Proof.
  destruct (spec_before_sep_split_first body true) as (w & -> & Hw).
  symmetry; apply trim_app_spaces; assumption.
Qed.

Lemma trim_end_last s : forall pre c,
  trim_end s = pre ++ [c] -> is_space c = false.
Proof.
  induction s as [|x s IH]; intros pre c; cbn [trim_end].
  - destruct pre; discriminate.
  - destruct (trim_end s) as [|d r] eqn:E.
    + destruct (is_space x) eqn:Ex; [destruct pre; discriminate|].
      destruct pre as [|y [|z pre]]; try discriminate.
      intros H; inversion H; subst; exact Ex.
    + destruct pre as [|y pre]; [discriminate|].
      intros H; inversion H; subst; eapply IH; eassumption.
Qed.

Lemma trim_head s c rest : trim s = c :: rest -> is_space c = false.
Proof.
  unfold trim; pose proof (trim_start_head s) as Hh.
  destruct (trim_start s) as [|x r]; [discriminate|].
  cbn [trim_end]; destruct (trim_end r).
  - rewrite Hh; intros H; inversion H; subst; exact Hh.
  - intros H; inversion H; subst; exact Hh.
Qed.

(** X12: what extraction returns has no white space at either end and no
    separator line of its own, so extraction finds nothing more to cut in
    it; this holds for every content the loop collects, none of which is
    empty. *)
Theorem extracted_content_is_clean :
  (forall body,
     trim (extract_content body) = extract_content body
     /\ (forall c rest, extract_content body = c :: rest ->
                        is_space c = false)
     /\ (forall pre c, extract_content body = pre ++ [c] ->
                       is_space c = false)
     /\ has_sep true (extract_content body) = false
     /\ split_first true (extract_content body) = extract_content body)
  /\ (forall W o files c,
        In c (aggregatedContent (process_files W o files)) ->
        c <> [] /\ trim c = c /\ has_sep true c = false).
Proof.
  assert (Hclean : forall body,
    trim (extract_content body) = extract_content body
    /\ has_sep true (extract_content body) = false).
  { intros body; split; [apply trim_idem | apply extract_content_no_sep]. }
  split.
  - intros body; destruct (Hclean body) as [Ht Hs].
    split; [exact Ht|]; split; [|split; [|split; [exact Hs|]]].
    + intros c rest E; apply (trim_head (extract_content body) c rest).
      rewrite Ht; exact E.
    + intros pre c E; unfold extract_content, trim in E.
      apply (trim_end_last _ pre c E).
    + apply split_first_no_sep; exact Hs.
  - intros W o files c Hc.
    rewrite contents_eq in Hc.
    apply in_flat_map in Hc as (f & _ & Hc).
    pose proof (contribution_nonempty W o f c Hc) as [Hne _].
    unfold contribution in Hc.
    destruct (read_note W f) as [| |data body]; try contradiction.
    destruct (passes W o f && nonempty (extract_content body));
      [|contradiction].
    destruct Hc as [<- | []].
    destruct (Hclean body) as [Ht Hs].
    split; [|split; assumption].
    intros E; rewrite E in Hne; discriminate.
Qed.

Lemma extracted_content_is_clean_witness :
  is_space "W" = false.
Proof.
  apply (proj1 (proj2 (proj1 extracted_content_is_clean
           (unlines ["  "; "Went hiking  "; "---"; "secret stuff"])))
           "W"%char (str "ent hiking")).
  reflexivity.
Defined.

Lemma line_is_sep_cut u t v :
  is_line_terminator t = true ->
  line_is_sep (u ++ t :: v) = line_is_sep (u ++ [t]).
Proof.
  intros Ht; induction u as [|c u IH].
  - simpl; rewrite Ht; reflexivity.
  - change ((c :: u) ++ t :: v) with (c :: (u ++ t :: v)).
    change ((c :: u) ++ [t]) with (c :: (u ++ [t])).
    cbn [line_is_sep].
    destruct (is_line_terminator c); [reflexivity|].
    destruct (is_space c); [exact IH|].
    apply (dashes_then_eol_cut (c :: u) t v Ht).
Qed.

Lemma spec_before_sep_cut u : forall bol t v,
  is_line_terminator t = true ->
  line_is_sep v = true ->
  spec_before_sep bol (u ++ t :: v) = spec_before_sep bol (u ++ [t]).
Proof.
  induction u as [|c u IH]; intros bol t v Ht Hv.
  - cbn [app spec_before_sep line_is_sep]; rewrite Ht, andb_false_r.
    destruct v as [|x v]; [discriminate|].
    cbn [spec_before_sep andb]; rewrite Hv; reflexivity.
  - change ((c :: u) ++ t :: v) with (c :: (u ++ t :: v)).
    change ((c :: u) ++ [t]) with (c :: (u ++ [t])).
    cbn [spec_before_sep].
    pose proof (line_is_sep_cut (c :: u) t v Ht) as Hl.
    cbn [app] in Hl; rewrite Hl.
    rewrite (IH _ t v Ht Hv); reflexivity.
Qed.

(** X13: nothing from a separator line on reaches the content.  For a
    line of three dashes that starts the body or follows a line
    terminator, with only white space after the dashes on that line, the
    extracted content is that of the text in front of the line, whatever
    comes below. *)
Theorem text_below_separator_is_ignored (pre tail : jsstring) :
  (pre = []
   \/ exists p t, pre = p ++ [t] /\ is_line_terminator t = true) ->
  eol_after_ws tail = true ->
  extract_content (pre ++ str "---" ++ tail) = extract_content pre.
Proof.
  intros Hpre Htail.
  assert (Hline : line_is_sep (str "---" ++ tail) = true).
  { cbn; exact Htail. }
  unfold extract_content; rewrite !trim_split_first.
  destruct Hpre as [-> | (p & t & -> & Ht)].
  - cbn [app]; change (str "---" ++ tail) with
      ("-"%char :: (str "--" ++ tail)) in *.
    cbn [spec_before_sep andb]; rewrite Hline; reflexivity.
  - rewrite <- app_assoc; cbn [app].
    rewrite (spec_before_sep_cut p true t _ Ht Hline); reflexivity.
Qed.

Lemma text_below_separator_is_ignored_witness :
  extract_content
    (unlines ["Went hiking"; ""] ++ str "---" ++ unlines [" "; "secret stuff"])
  = extract_content (unlines ["Went hiking"; ""]).
Proof.
  apply (text_below_separator_is_ignored
           (unlines ["Went hiking"; ""]) (unlines [" "; "secret stuff"])).
  - right; exists (str "Went hiking"), nl; split; reflexivity.
  - reflexivity.
Defined.

(** *** A note that opens with its date heading *)

Lemma date_char_plain c :
  is_digit c || (c =? "-")%char = true ->
  is_space c = false /\ is_line_terminator c = false.
Proof.
  destruct c as [[] [] [] [] [] [] [] []]; vm_compute; intros H;
    try discriminate H; split; reflexivity.
Qed.

Lemma digits_shape n : forall s r,
  digits n s = Some r ->
  exists p, s = p ++ r
            /\ forallb (fun c => is_digit c || (c =? "-")%char) p = true
            /\ forall z, digits n (p ++ z) = Some z.
Proof.
  induction n as [|n IH]; intros s r H; cbn [digits] in H.
  - inversion H; exists []; auto.
  - destruct s as [|c s]; [discriminate|].
    destruct (is_digit c) eqn:Ec; [|discriminate].
    destruct (IH _ _ H) as (p & -> & Hp & Hz).
    exists (c :: p); split; [reflexivity|]; split.
    + cbn [forallb]; rewrite Ec, Hp; reflexivity.
    + intros z; cbn [app digits]; rewrite Ec; apply Hz.
Qed.

Lemma date_shape d :
  date_at d = Some [] ->
  (exists a d', d = a :: d')
  /\ forallb (fun c => is_digit c || (c =? "-")%char) d = true
  /\ forall z, date_at (d ++ z) = Some z.
Proof.
  unfold date_at, bind; intros H.
  destruct (digits 4 d) as [s1|] eqn:E1; [|discriminate].
  destruct (expect "-" s1) as [s2|] eqn:E2; [|discriminate].
  destruct (digits 2 s2) as [s3|] eqn:E3; [|discriminate].
  destruct (expect "-" s3) as [s4|] eqn:E4; [|discriminate].
  apply expect_inv in E2, E4.
  apply digits_shape in E1 as (p1 & -> & Hp1 & Hz1).
  apply digits_shape in E3 as (p3 & -> & Hp3 & Hz3).
  apply digits_shape in H as (p5 & -> & Hp5 & Hz5).
  subst s1 s3; rewrite app_nil_r.
  split; [|split].
  - destruct p1 as [|a p1]; [eexists _, _; reflexivity|].
    exists a; eexists; reflexivity.
  - rewrite forallb_app; cbn [forallb]; rewrite forallb_app; cbn [forallb].
    rewrite Hp1, Hp3, Hp5; reflexivity.
  - intros z.
    repeat (rewrite <- ?app_assoc; cbn [app]).
    rewrite Hz1; cbn [expect]; rewrite Ascii.eqb_refl.
    rewrite Hz3; cbn [expect]; rewrite Ascii.eqb_refl.
    apply Hz5.
Qed.

Lemma plain_chars d :
  forallb (fun c => is_digit c || (c =? "-")%char) d = true ->
  forallb (fun c => negb (is_space c)) d = true
  /\ forallb (fun c => negb (is_line_terminator c)) d = true.
Proof.
  induction d as [|c d IH]; cbn [forallb]; [auto|].
  intros H; apply andb_true_iff in H as [Hc Hd].
  destruct (date_char_plain c Hc) as [-> ->], (IH Hd) as [-> ->]; auto.
Qed.

Lemma trim_end_app a b :
  trim_end (a ++ b)
  = match trim_end b with [] => trim_end a | _ => a ++ trim_end b end.
Proof.
  induction a as [|c a IH]; cbn [app trim_end].
  - destruct (trim_end b); reflexivity.
  - rewrite IH; destruct (trim_end b) as [|x r]; [reflexivity|].
    destruct a; reflexivity.
Qed.

Lemma trim_end_plain d :
  forallb (fun c => negb (is_space c)) d = true -> trim_end d = d.
Proof.
  induction d as [|c d IH]; cbn [forallb trim_end]; [reflexivity|].
  intros H; apply andb_true_iff in H as [Hc Hd].
  rewrite (IH Hd); apply negb_true_iff in Hc; rewrite Hc.
  destruct d; reflexivity.
Qed.

Lemma trim_end_nil s : trim_end s = [] -> forallb is_space s = true.
Proof.
  induction s as [|c s IH]; cbn [trim_end forallb]; [reflexivity|].
  destruct (trim_end s); [|discriminate].
  destruct (is_space c); [intros _; apply IH; reflexivity|discriminate].
Qed.

Lemma trim_start_spaces w : forallb is_space w = true -> trim_start w = [].
Proof.
  induction w as [|c w IH]; cbn [forallb trim_start]; [reflexivity|].
  intros H; apply andb_true_iff in H as [-> Hw]; apply IH; exact Hw.
Qed.

Lemma trim_trim_end s : trim (trim_end s) = trim s.
Proof.
  destruct (trim_end_split s) as (w & Hs & Hw).
  rewrite Hs at 2; symmetry; apply trim_app_spaces; exact Hw.
Qed.

Lemma line_is_sep_spaces w : forallb is_space w = true -> line_is_sep w = false.
Proof.
  induction w as [|c w IH]; cbn [forallb line_is_sep]; [reflexivity|].
  intros H; apply andb_true_iff in H as [-> Hw].
  destruct (is_line_terminator c); [reflexivity | apply IH; exact Hw].
Qed.

Lemma spec_before_sep_spaces w : forall bol,
  forallb is_space w = true -> spec_before_sep bol w = w.
Proof.
  induction w as [|c w IH]; intros bol H; [reflexivity|].
  cbn [spec_before_sep]; rewrite (line_is_sep_spaces _ H), andb_false_r.
  cbn [forallb] in H; apply andb_true_iff in H as [_ Hw].
  rewrite (IH _ Hw); reflexivity.
Qed.

Lemma spec_before_sep_plain u : forall bol w,
  forallb (fun c => negb (is_line_terminator c)) u = true ->
  forallb is_space w = true ->
  (bol = true -> line_is_sep (u ++ w) = false) ->
  spec_before_sep bol (u ++ w) = u ++ w.
Proof.
  induction u as [|c u IH]; intros bol w Hu Hw Hb.
  - apply spec_before_sep_spaces; exact Hw.
  - cbn [forallb] in Hu; apply andb_true_iff in Hu as [Hc Hu].
    apply negb_true_iff in Hc.
    cbn [app spec_before_sep].
    replace (bol && line_is_sep (c :: u ++ w)) with false
      by (destruct bol; [symmetry; apply Hb; reflexivity | reflexivity]).
    rewrite Hc, (IH false w Hu Hw); [reflexivity | discriminate].
Qed.

Lemma spec_before_sep_first_line u : forall bol t v,
  forallb (fun c => negb (is_line_terminator c)) u = true ->
  is_line_terminator t = true ->
  (bol = true -> line_is_sep (u ++ [t]) = false) ->
  spec_before_sep bol (u ++ t :: v) = u ++ t :: spec_before_sep true v.
Proof.
  induction u as [|c u IH]; intros bol t v Hu Ht Hb.
  - cbn [app spec_before_sep line_is_sep]; rewrite Ht, andb_false_r.
    reflexivity.
  - cbn [forallb] in Hu; apply andb_true_iff in Hu as [Hc Hu].
    apply negb_true_iff in Hc.
    cbn [app spec_before_sep].
    pose proof (line_is_sep_cut (c :: u) t v Ht) as Hl; cbn [app] in Hl.
    rewrite Hl.
    replace (bol && line_is_sep (c :: u ++ [t])) with false
      by (destruct bol; [symmetry; apply Hb; reflexivity | reflexivity]).
    rewrite Hc, (IH false t v Hu Ht); [reflexivity | discriminate].
Qed.

Lemma remove_heading_plain u : forall bol,
  forallb (fun c => negb (is_line_terminator c)) u = true ->
  (bol = true -> heading_at u = None) ->
  remove_heading bol u = u.
Proof.
  induction u as [|c u IH]; intros bol Hu Hb; [reflexivity|].
  cbn [forallb] in Hu; apply andb_true_iff in Hu as [Hc Hu].
  apply negb_true_iff in Hc.
  cbn [remove_heading].
  replace (if bol then heading_at (c :: u) else None) with (@None jsstring)
    by (destruct bol; [symmetry; apply Hb; reflexivity | reflexivity]).
  rewrite Hc, (IH false Hu); [reflexivity | discriminate].
Qed.

Lemma trim_start_nil s : trim_start s = [] -> forallb is_space s = true.
Proof.
  induction s as [|c s IH]; cbn [trim_start forallb]; [reflexivity|].
  destruct (is_space c); [exact IH | discriminate].
Qed.

Lemma trim_nil s : trim s = [] -> trim_end s = [].
Proof.
  unfold trim; intros H; apply trim_end_nil in H.
  pose proof (trim_start_head s) as Hh.
  destruct (trim_start s) as [|c r] eqn:E.
  - apply trim_end_spaces, trim_start_nil; exact E.
  - cbn [forallb] in H; rewrite Hh in H; discriminate.
Qed.

Lemma heading_at_hashes r :
  heading_at ("#"%char :: "#"%char :: " "%char :: r)
  = bind (date_at (trim_start r)) lazy_ws_nl.
Proof. reflexivity. Qed.

Section Heading.
Variable d : jsstring.
Hypothesis Hd : date_at d = Some [].

Let heading : jsstring := str "## " ++ d.

Lemma heading_no_lt :
  forallb (fun c => negb (is_line_terminator c)) heading = true.
Proof.
  destruct (date_shape d Hd) as (_ & Hc & _).
  destruct (plain_chars d Hc) as [_ Hl].
  unfold heading; cbn; exact Hl.
Qed.

Lemma heading_trim : trim heading = heading.
Proof.
  destruct (date_shape d Hd) as ((a & d' & E) & Hc & _).
  destruct (plain_chars d Hc) as [Hs _].
  unfold trim, heading; cbn [str list_ascii_of_string app trim_start].
  change (is_space "#") with false; cbv iota.
  change ("#"%char :: "#"%char :: " "%char :: d) with (str "## " ++ d).
  rewrite trim_end_app, (trim_end_plain d Hs), E; reflexivity.
Qed.

Lemma heading_at_alone : heading_at heading = None.
Proof.
  destruct (date_shape d Hd) as ((a & d' & E) & Hc & _).
  destruct (plain_chars d Hc) as [Hs _].
  unfold heading; cbn [str list_ascii_of_string app].
  rewrite heading_at_hashes.
  assert (Ht : trim_start d = d).
  { rewrite E in Hs |- *; cbn [forallb trim_start] in *.
    apply andb_true_iff in Hs as [Ha _]; apply negb_true_iff in Ha.
    rewrite Ha; reflexivity. }
  rewrite Ht, Hd; reflexivity.
Qed.

Lemma heading_at_line z : heading_at (heading ++ nl :: z) = Some z.
Proof.
  destruct (date_shape d Hd) as ((a & d' & E) & Hc & Hz).
  destruct (plain_chars d Hc) as [Hs _].
  unfold heading; cbn [str list_ascii_of_string app].
  rewrite heading_at_hashes.
  assert (Ht : trim_start (d ++ nl :: z) = d ++ nl :: z).
  { rewrite E in Hs |- *; cbn [forallb trim_start app] in *.
    apply andb_true_iff in Hs as [Ha _]; apply negb_true_iff in Ha.
    rewrite Ha; reflexivity. }
  rewrite Ht, (Hz (nl :: z)); cbn [bind lazy_ws_nl]; rewrite Ascii.eqb_refl.
  reflexivity.
Qed.

Lemma heading_kept : trim (remove_heading true heading) = heading.
Proof.
  rewrite (remove_heading_plain heading true heading_no_lt).
  - exact heading_trim.
  - intros _; exact heading_at_alone.
Qed.

Lemma heading_alone w :
  forallb is_space w = true -> extract_content (heading ++ w) = heading.
Proof.
  intros Hw; unfold extract_content; rewrite trim_split_first.
  rewrite (spec_before_sep_plain heading true w heading_no_lt Hw).
  - rewrite (trim_app_spaces heading w Hw), heading_trim.
    exact heading_kept.
  - intros _; reflexivity.
Qed.

Lemma heading_line rest :
  extract_content (heading ++ nl :: rest)
  = if nonempty (trim (split_first true rest))
    then trim (split_first true rest)
    else heading.
Proof.
  unfold extract_content at 1; rewrite !trim_split_first.
  rewrite (spec_before_sep_first_line heading true nl rest heading_no_lt
             eq_refl); [|intros _; reflexivity].
  set (Y := spec_before_sep true rest).
  assert (Hts : forall z, trim_start (heading ++ z) = heading ++ z).
  { intros z; reflexivity. }
  unfold trim at 2; rewrite Hts, trim_end_app.
  cbn [trim_end]; change (is_space nl) with true; cbv iota.
  destruct (trim_end Y) as [|x r] eqn:EY.
  - assert (E : trim Y = []).
    { unfold trim; rewrite (trim_start_spaces Y (trim_end_nil Y EY)).
      reflexivity. }
    rewrite E; cbn [nonempty].
    assert (Hte : trim_end heading = heading) by exact heading_trim.
    rewrite Hte; exact heading_kept.
  - assert (Hm : remove_heading true (heading ++ nl :: x :: r) = x :: r).
    { pose proof (heading_at_line (x :: r)) as Hh.
      unfold heading in *; cbn [str list_ascii_of_string app] in *.
      cbn [remove_heading]; rewrite Hh; reflexivity. }
    rewrite Hm, <- EY, trim_trim_end.
    destruct (trim Y) as [|y t] eqn:E; [|reflexivity].
    apply trim_nil in E; congruence.
Qed.

End Heading.

(** X14: a body that opens with its date heading.  When only white space
    follows the heading, trimming takes away the line feed the heading
    expression needs, so the heading stays and is the whole content (the
    note is not empty for the engine).  Otherwise the heading line is
    dropped and the content is the trimmed text between it and the first
    separator line, with any further heading left in place. *)
Theorem note_opening_with_its_heading (d : jsstring) :
  date_at d = Some [] ->
  (forall w, forallb is_space w = true ->
             extract_content (str "## " ++ d ++ w) = str "## " ++ d)
  /\ (forall rest,
        extract_content (str "## " ++ d ++ nl :: rest)
        = if nonempty (trim (split_first true rest))
          then trim (split_first true rest)
          else str "## " ++ d).
Proof.
  intros Hd; split.
  - intros w Hw.
    pose proof (heading_alone d Hd w Hw) as H.
    rewrite <- app_assoc in H; exact H.
  - intros rest.
    pose proof (heading_line d Hd rest) as H.
    rewrite <- app_assoc in H; exact H.
Qed.

Lemma note_opening_with_its_heading_witness :
  extract_content (str "## " ++ str "2024-01-05" ++ [nl; nl])
  = str "## " ++ str "2024-01-05"
  /\ extract_content
       (str "## " ++ str "2024-01-05"
        ++ nl :: unlines ["## 2024-01-06"; "text"; "---"; "below"])
     = unlines ["## 2024-01-06"; "text"].
Proof.
  split.
  - apply (proj1 (note_opening_with_its_heading (str "2024-01-05") eq_refl));
      reflexivity.
  - exact (proj2 (note_opening_with_its_heading (str "2024-01-05") eq_refl)
             (unlines ["## 2024-01-06"; "text"; "---"; "below"])).
Defined.

End ExtractExtras.

(** ** Files that cannot be read or parsed *)

Module ToleranceExtras.

Lemma filter_perm (p : jsstring -> bool) l l' :
  Permutation l l' -> Permutation (filter p l) (filter p l').
Proof.
  induction 1 as [|x l l' _ IH|x y l|l l' l'' _ IH1 _ IH2]; simpl.
  - constructor.
  - destruct (p x); [constructor|]; exact IH.
  - destruct (p x), (p y); try reflexivity; apply perm_swap.
  - etransitivity; eassumption.
Qed.

Lemma filter_sorted (p : jsstring -> bool) l :
  Sorted (fun a b => str_leb a b = true) l ->
  Sorted (fun a b => str_leb a b = true) (filter p l).
Proof.
  intros Hs.
  apply Sorted_StronglySorted in Hs;
    [|intros a b c; apply str_leb_trans].
  apply StronglySorted_Sorted.
  induction Hs as [|a l Hs IH Ha]; simpl; [constructor|].
  destruct (p a); [|exact IH].
  constructor; [exact IH|].
  rewrite Forall_forall in *; intros x Hx.
  apply filter_In in Hx as [Hx _]; apply Ha; exact Hx.
Qed.

(** Sorting and dropping files commute. *)
Lemma sort_filter (p : jsstring -> bool) l :
  sort str_leb (filter p l) = filter p (sort str_leb l).
Proof.
  apply sorted_perm_eq.
  - apply sort_sorted, str_leb_total.
  - apply filter_sorted, sort_sorted, str_leb_total.
  - rewrite (sort_perm str_leb (filter p l)).
    apply filter_perm, Permutation_sym, sort_perm.
Qed.

Lemma contribution_unreadable W o f :
  readable W f = false -> contribution W o f = [].
Proof.
  unfold readable, contribution.
  destruct (read_note W f); [reflexivity | reflexivity | discriminate].
Qed.

Lemma passes_readable W o f : passes W o f = true -> readable W f = true.
Proof.
  unfold readable, passes.
  destruct (read_note W f); [discriminate | discriminate | reflexivity].
Qed.

(** X15: a file that cannot be read or parsed is skipped and the batch
    goes on.  In the engine such a file adds one to the count of processed
    files and nothing else: contents and the count of included notes are
    those of the readable files alone.  In the scanner it changes
    nothing. *)
Theorem unreadable_files_are_skipped W :
  (forall o files,
     aggregatedContent (process_files W o files)
     = aggregatedContent (process_files W o (filter (readable W) files))
     /\ includedCount (process_files W o files)
        = includedCount (process_files W o (filter (readable W) files))
     /\ processedCount (process_files W o files)
        = processedCount (process_files W o (filter (readable W) files))
          + List.length (filter (fun f => negb (readable W f)) files))
  /\ (forall files acc,
        fold_left (scan_file W) files acc
        = fold_left (scan_file W) (filter (readable W) files) acc).
Proof.
  split.
  - intros o files; rewrite !process_files_eq;
      cbn [aggregatedContent includedCount processedCount].
    split; [|split].
    + rewrite sort_filter.
      induction (sort str_leb files) as [|f l IH]; [reflexivity|].
      cbn [flat_map filter]; destruct (readable W f) eqn:E.
      * cbn [flat_map]; rewrite IH; reflexivity.
      * rewrite (contribution_unreadable W o f E); exact IH.
    + induction files as [|f l IH]; [reflexivity|].
      cbn [filter]; destruct (passes W o f) eqn:Ep.
      * rewrite (passes_readable W o f Ep); cbn [filter]; rewrite Ep.
        cbn [List.length]; rewrite IH; reflexivity.
      * destruct (readable W f); cbn [filter]; rewrite ?Ep; exact IH.
    + induction files as [|f l IH]; [reflexivity|].
      cbn [filter]; destruct (readable W f); cbn [negb List.length];
        rewrite IH; lia.
  - intros files; induction files as [|f l IH]; intros acc; [reflexivity|].
    cbn [fold_left filter]; unfold readable at 1, scan_file at 2.
    destruct (read_note W f) as [| |data body] eqn:E.
    + apply IH.
    + apply IH.
    + cbn [fold_left]; unfold scan_file at 3; rewrite E; apply IH.
Qed.

End ToleranceExtras.

(** ** When a call succeeds *)

Module OutcomeExtras.

Lemma some_content_iff W o files :
  (List.length (aggregatedContent (process_files W o files)) =? 0)%nat = false
  <-> exists f, In f files /\ passes W o f && has_content W f = true.
Proof.
  rewrite Nat.eqb_neq, contents_length; split.
  - intros H.
    destruct (filter (fun f => passes W o f && has_content W f) files)
      as [|f l] eqn:E; [elim H; reflexivity|].
    assert (Hin : In f (filter (fun f => passes W o f && has_content W f)
                          files)) by (rewrite E; left; reflexivity).
    apply filter_In in Hin; exists f; exact Hin.
  - intros (f & Hf & Hp) E.
    apply length_zero_iff_nil in E.
    assert (Hin : In f (filter (fun f => passes W o f && has_content W f)
                          files)) by (apply filter_In; auto).
    rewrite E in Hin; exact Hin.
Qed.

(** X16: once the options are valid, no output file is in the way and
    [glob] has answered, the call succeeds exactly when some file kept by
    the date filter passes both tests with content left after extraction
    and the output can be written; with such a file and an output that
    cannot be written it fails with [WriteFailure]. *)
Theorem success_iff P W today o found :
  valid_options o = true ->
  exists_path W (aggregatedFilename P today o) = false ->
  glob_sync W (path_join P (notesDir o) (str "*.md")) = Some found ->
  ((exists s, snd (aggregateNotes P W today o) = Ok s)
   <-> (exists f, In f (date_filter P o found)
                  /\ passes W o f && has_content W f = true)
       /\ can_write W (aggregatedFilename P today o) = true)
  /\ (snd (aggregateNotes P W today o) = Err WriteFailure
      <-> (exists f, In f (date_filter P o found)
                     /\ passes W o f && has_content W f = true)
          /\ can_write W (aggregatedFilename P today o) = false).
Proof.
  intros Hv He Hg; rewrite (aggregateNotes_found P W today o found Hv He Hg).
  cbv zeta.
  pose proof (some_content_iff W o (date_filter P o found)) as Hc.
  destruct (date_filter P o found) as [|f0 fs] eqn:Ed.
  - cbn [List.length Nat.eqb snd]; split; split.
    + intros (s & H); destruct (has_date_bound o); discriminate.
    + intros [(f & [] & _) _].
    + destruct (has_date_bound o); discriminate.
    + intros [(f & [] & _) _].
  - cbn [List.length Nat.eqb].
    destruct (List.length (aggregatedContent _) =? 0)%nat.
    + cbn [snd]; split; split.
      * intros (s & H); discriminate.
      * intros [H _]; apply Hc in H; discriminate.
      * discriminate.
      * intros [H _]; apply Hc in H; discriminate.
    + assert (Hex : exists f, In f (f0 :: fs)
                              /\ passes W o f && has_content W f = true)
        by (apply Hc; reflexivity).
      destruct (can_write W _); cbn [snd]; split; split.
      * intros _; auto.
      * intros _; eexists; reflexivity.
      * discriminate.
      * intros [_ H]; discriminate.
      * intros (s & H); discriminate.
      * intros [_ H]; discriminate.
      * intros _; auto.
      * reflexivity.
Qed.

Lemma success_iff_witness :
  ((exists s,
      snd (aggregateNotes posix (vault [jan01; jan02]) (str "2024-03-01")
             (request (Some [str "trip"]) [] [] [])) = Ok s)
   <-> (exists f,
          In f (date_filter posix (request (Some [str "trip"]) [] [] [])
                  (map fst [jan01; jan02]))
          /\ passes (vault [jan01; jan02])
               (request (Some [str "trip"]) [] [] []) f
             && has_content (vault [jan01; jan02]) f = true)
       /\ can_write (vault [jan01; jan02])
            (aggregatedFilename posix (str "2024-03-01")
               (request (Some [str "trip"]) [] [] [])) = true)
  /\ (snd (aggregateNotes posix (vault [jan01; jan02]) (str "2024-03-01")
             (request (Some [str "trip"]) [] [] [])) = Err WriteFailure
      <-> (exists f,
             In f (date_filter posix (request (Some [str "trip"]) [] [] [])
                     (map fst [jan01; jan02]))
             /\ passes (vault [jan01; jan02])
                  (request (Some [str "trip"]) [] [] []) f
                && has_content (vault [jan01; jan02]) f = true)
          /\ can_write (vault [jan01; jan02])
               (aggregatedFilename posix (str "2024-03-01")
                  (request (Some [str "trip"]) [] [] [])) = false).
Proof.
  exact (success_iff posix (vault [jan01; jan02]) (str "2024-03-01")
           (request (Some [str "trip"]) [] [] []) (map fst [jan01; jan02])
           eq_refl eq_refl eq_refl).
Defined.

End OutcomeExtras.
